(** * haddock3: module runtime, alascan scheduling and configuration loading

    A shallow embedding of the parts of the repository that the specification
    speaks about:

    - [haddock/modules/__init__.py]: [BaseHaddockModule] (construction,
      predecessor addressing, [finish_with_error]) and [working_directory];
    - [src/haddock/modules/analysis/alascan/__init__.py]: [get_index_list] and
      [HaddockModule._run];
    - [src/haddock/gear/preprocessing.py]: the steps that work line by line
      and the chain letters;
    - [tests/test_libhpc.py] and [tests/test_config_reader.py]: the expected
      behaviour of [haddock.libs.libhpc] and [haddock.gear.config_reader],
      whose implementation is not part of the sources at hand.

    Python integers are unbounded and are modelled by [Z]; [//] and [%] are
    floor division and the modulus with the sign of the divisor, which is what
    [Z.div] and [Z.modulo] compute. *)

From Stdlib Require Import Ascii String.
From stdpp Require Import base numbers list list_numbers strings pretty gmap.

Local Open Scope Z_scope.

(** ** Python exceptions and results *)

(** An exception object: its class, and what its text is made of. An
    [AttributeError] names the class of the object and the attribute that is
    missing; the errors of the operating system carry the file name the call
    was given; [OtherError] is any other exception of class [Exception], with
    its text. *)
Inductive exn : Type :=
  | ZeroDivisionError
  | IndexError
  | AttributeError (obj attribute : string)
  | FileNotFoundError (filename : string)
  | IsADirectoryError (filename : string)
  | NotADirectoryError (filename : string)
  | RecipeError (message : string)
  | SystemExit
  | ConfigSyntaxError (what : string)
  | OtherError (what : string).

Inductive result (A : Type) : Type :=
  | Ok (a : A)
  | Raise (e : exn).
Arguments Ok {A} a.
Arguments Raise {A} e.

#[global] Instance result_ret : MRet result := λ A a, Ok a.
#[global] Instance result_bind : MBind result := λ A B k r,
  match r with
  | Ok a => k a
  | Raise e => Raise e
  end.

(** ** alascan: distribution of models among cores *)

Module Alascan.

(** [range(n)] for an integer [n]; empty when [n <= 0]. *)
Definition range (n : Z) : list Z := seqZ 0 n.

(** [l[-1]]. The list it is applied to below always starts as [[0]] and only
    grows, so the [IndexError] of an empty list cannot occur; the default is
    never used. *)
Definition last_item (l : list Z) : Z := default 0 (last l).

(** The body of the [for core in range(ncores)] loop of [get_index_list]. *)
Definition index_step (spc rem : Z) (index_list : list Z) (core : Z) : list Z :=
  if decide (core < rem)
  then index_list ++ [last_item index_list + spc + 1]
  else index_list ++ [last_item index_list + spc].

Definition get_index_list (nmodels ncores : Z) : result (list Z) :=
  if decide (ncores = 0) then Raise ZeroDivisionError
  else
    let spc := nmodels `div` ncores in
    let rem := nmodels `mod` ncores in
    Ok (foldl (index_step spc rem) [0] (range ncores)).

(** The ranges [index_list[core] : index_list[core + 1]] that [_run] slices
    the models with, one per core, as pairs (start, stop). *)
Definition core_ranges (index_list : list Z) : list (Z * Z) :=
  zip index_list (tail index_list).

(** Closed form of the boundary of index [i]. *)
Definition boundary (spc rem i : Z) : Z := i * spc + Z.min i rem.

Lemma foldl_index_step spc rem (k : nat) :
  0 ≤ rem →
  foldl (index_step spc rem) [0] (seqZ 0 (Z.of_nat k))
  = boundary spc rem <$> seqZ 0 (Z.of_nat (S k)).
Proof.
  intros Hrem. induction k as [|k IH].
  - unfold seqZ, boundary. simpl. f_equal. lia.
  - rewrite seqZ_S, foldl_snoc, IH.
    rewrite (seqZ_S 0 (S k)), fmap_app. simpl.
    unfold index_step at 1.
    assert (Hlast : last_item (boundary spc rem <$> seqZ 0 (Z.of_nat (S k)))
                    = boundary spc rem (Z.of_nat k)).
    { unfold last_item. rewrite seqZ_S, fmap_app. simpl.
      rewrite last_snoc. simpl. f_equal. }
    rewrite Hlast. unfold boundary.
    case_decide; do 2 f_equal; lia.
Qed.

Lemma get_index_list_closed (nmodels ncores : Z) :
  0 < ncores →
  get_index_list nmodels ncores
  = Ok (boundary (nmodels `div` ncores) (nmodels `mod` ncores)
          <$> seqZ 0 (ncores + 1)).
Proof.
  intros Hc. unfold get_index_list, range.
  case_decide; [lia|]. f_equal.
  pose proof (foldl_index_step (nmodels `div` ncores) (nmodels `mod` ncores)
                (Z.to_nat ncores)) as Hfold.
  rewrite Z2Nat.id in Hfold by lia.
  rewrite Hfold by (apply Z.mod_pos_bound; lia).
  do 2 f_equal. lia.
Qed.

Lemma boundary_lookup spc rem c (i : nat) :
  Z.of_nat i ≤ c →
  (boundary spc rem <$> seqZ 0 (c + 1)) !! i = Some (boundary spc rem (Z.of_nat i)).
Proof.
  intros Hi. rewrite list_lookup_fmap, lookup_seqZ_lt by lia. reflexivity.
Qed.

Lemma core_ranges_lookup spc rem c (i : nat) :
  Z.of_nat i < c →
  core_ranges (boundary spc rem <$> seqZ 0 (c + 1)) !! i
  = Some (boundary spc rem (Z.of_nat i), boundary spc rem (Z.of_nat i + 1)).
Proof.
  intros Hi. unfold core_ranges.
  rewrite lookup_zip_with, lookup_tail, !boundary_lookup by lia.
  simpl. do 3 f_equal. lia.
Qed.

Lemma core_ranges_length spc rem c :
  0 ≤ c → length (core_ranges (boundary spc rem <$> seqZ 0 (c + 1))) = Z.to_nat c.
Proof.
  intros Hc. unfold core_ranges.
  rewrite length_zip_with, length_fmap, length_seqZ.
  destruct (boundary spc rem <$> seqZ 0 (c + 1)) as [|b l] eqn:E.
  { apply (f_equal length) in E. rewrite length_fmap, length_seqZ in E. simpl in E. lia. }
  apply (f_equal length) in E. rewrite length_fmap, length_seqZ in E. simpl in *. lia.
Qed.

Lemma core_ranges_lookup_inv spc rem c (i : nat) r :
  0 ≤ c →
  core_ranges (boundary spc rem <$> seqZ 0 (c + 1)) !! i = Some r →
  Z.of_nat i < c
  ∧ r = (boundary spc rem (Z.of_nat i), boundary spc rem (Z.of_nat i + 1)).
Proof.
  intros Hc Hr.
  assert (Hi : Z.of_nat i < c).
  { apply lookup_lt_Some in Hr. rewrite core_ranges_length in Hr by done. lia. }
  split; [done|]. rewrite core_ranges_lookup in Hr by done. congruence.
Qed.

Lemma boundary_mono spc rem i j :
  0 ≤ spc → i ≤ j → boundary spc rem i ≤ boundary spc rem j.
Proof. unfold boundary. intros. nia. Qed.

Lemma boundary_step spc rem i :
  0 ≤ i →
  boundary spc rem (i + 1) - boundary spc rem i
  = spc + (if decide (i < rem) then 1 else 0).
Proof. unfold boundary. intros. case_decide; lia. Qed.

(** A point below the last boundary lies in one of the ranges. *)
Lemma boundary_locate spc rem (k : nat) x :
  0 ≤ rem → 0 ≤ x < boundary spc rem (Z.of_nat k) →
  ∃ i : nat, (i < k)%nat
    ∧ boundary spc rem (Z.of_nat i) ≤ x < boundary spc rem (Z.of_nat i + 1).
Proof.
  intros Hrem. induction k as [|k IH]; intros Hx.
  - unfold boundary in Hx. lia.
  - destruct (decide (x < boundary spc rem (Z.of_nat k))) as [Hlt|Hge].
    + destruct IH as (i & Hi & Hin); [lia|]. exists i. split; [lia|done].
    + exists k. split; [lia|].
      replace (Z.of_nat k + 1) with (Z.of_nat (S k)) by lia. lia.
Qed.

(** C3. For a workload of [n >= 0] models and [c >= 1] cores,
    [get_index_list n c] returns boundaries that cut [0, n) into exactly [c]
    ranges: the first starts at 0, the last stops at [n], each range starts
    where the one before stops (contiguous, no gap, no overlap), the range of
    core [i] has length [n // c], plus one exactly when [i < n % c] (so the
    [n % c] lowest-indexed cores get the extra unit), and every index of
    [0, n) lies in one and only one range while no range holds anything
    else. *)
Theorem get_index_list_partition (n c : Z) :
  0 ≤ n → 1 ≤ c →
  ∃ index_list,
    get_index_list n c = Ok index_list
    ∧ length index_list = S (Z.to_nat c)
    ∧ length (core_ranges index_list) = Z.to_nat c
    ∧ fst <$> head (core_ranges index_list) = Some 0
    ∧ snd <$> last (core_ranges index_list) = Some n
    ∧ (∀ (i : nat) r r',
          core_ranges index_list !! i = Some r →
          core_ranges index_list !! S i = Some r' → r'.1 = r.2)
    ∧ (∀ (i : nat) r,
          core_ranges index_list !! i = Some r →
          r.2 - r.1 = n `div` c + (if decide (Z.of_nat i < n `mod` c) then 1 else 0))
    ∧ (∀ (i : nat) r x,
          core_ranges index_list !! i = Some r → r.1 ≤ x < r.2 → 0 ≤ x < n)
    ∧ (∀ x, 0 ≤ x < n →
          ∃ (i : nat) r,
            core_ranges index_list !! i = Some r ∧ r.1 ≤ x < r.2
            ∧ ∀ (j : nat) r',
                core_ranges index_list !! j = Some r' → r'.1 ≤ x < r'.2 → j = i).
Proof.
  intros Hn Hc.
  set (spc := n `div` c). set (rem := n `mod` c).
  assert (Hspc : 0 ≤ spc) by (apply Z.div_pos; lia).
  assert (Hrem : 0 ≤ rem < c) by (apply Z.mod_pos_bound; lia).
  assert (Hlast : boundary spc rem c = n).
  { unfold boundary. rewrite Z.min_r by lia.
    pose proof (Z.div_mod n c) as Hdm. fold spc rem in Hdm. lia. }
  assert (Hfirst : boundary spc rem 0 = 0) by (unfold boundary; lia).
  eexists. split; [apply get_index_list_closed; lia|]. fold spc rem.
  repeat split.
  - rewrite length_fmap, length_seqZ. lia.
  - apply core_ranges_length. lia.
  - rewrite head_lookup, core_ranges_lookup by lia. simpl.
    change (Z.of_nat 0) with 0. by rewrite Hfirst.
  - rewrite last_lookup, core_ranges_length by lia.
    rewrite core_ranges_lookup by lia. simpl. f_equal.
    rewrite <- Hlast. f_equal. lia.
  - intros i r r' Hr Hr'.
    apply core_ranges_lookup_inv in Hr as [_ ->]; [|lia].
    apply core_ranges_lookup_inv in Hr' as [_ ->]; [|lia].
    simpl. f_equal. lia.
  - intros i r Hr.
    apply core_ranges_lookup_inv in Hr as [_ ->]; [|lia].
    simpl. apply boundary_step. lia.
  - apply core_ranges_lookup_inv in H as [Hi ->]; [|lia]. simpl in *.
    pose proof (boundary_mono spc rem 0 (Z.of_nat i) Hspc). lia.
  - apply core_ranges_lookup_inv in H as [Hi ->]; [|lia]. simpl in *.
    pose proof (boundary_mono spc rem (Z.of_nat i + 1) c Hspc). lia.
  - intros x Hx.
    destruct (boundary_locate spc rem (Z.to_nat c) x) as (i & Hi & Hin);
      [lia | rewrite Z2Nat.id by lia; lia |].
    exists i, (boundary spc rem (Z.of_nat i), boundary spc rem (Z.of_nat i + 1)).
    split; [apply core_ranges_lookup; lia|]. split; [done|].
    intros j r' Hr' Hin'.
    apply core_ranges_lookup_inv in Hr' as [Hj ->]; [|lia]. simpl in *.
    destruct (decide (j = i)) as [|Hne]; [done|exfalso].
    destruct (decide (j < i)%nat).
    + pose proof (boundary_mono spc rem (Z.of_nat j + 1) (Z.of_nat i) Hspc). lia.
    + pose proof (boundary_mono spc rem (Z.of_nat i + 1) (Z.of_nat j) Hspc). lia.
Qed.

Lemma get_index_list_partition_witness :
  ∃ index_list,
    get_index_list 10 3 = Ok index_list
    ∧ length index_list = S (Z.to_nat 3)
    ∧ length (core_ranges index_list) = Z.to_nat 3
    ∧ fst <$> head (core_ranges index_list) = Some 0
    ∧ snd <$> last (core_ranges index_list) = Some 10
    ∧ (∀ (i : nat) r r',
          core_ranges index_list !! i = Some r →
          core_ranges index_list !! S i = Some r' → r'.1 = r.2)
    ∧ (∀ (i : nat) r,
          core_ranges index_list !! i = Some r →
          r.2 - r.1 = 10 `div` 3 + (if decide (Z.of_nat i < 10 `mod` 3) then 1 else 0))
    ∧ (∀ (i : nat) r x,
          core_ranges index_list !! i = Some r → r.1 ≤ x < r.2 → 0 ≤ x < 10)
    ∧ (∀ x, 0 ≤ x < 10 →
          ∃ (i : nat) r,
            core_ranges index_list !! i = Some r ∧ r.1 ≤ x < r.2
            ∧ ∀ (j : nat) r',
                core_ranges index_list !! j = Some r' → r'.1 ≤ x < r'.2 → j = i).
Proof. apply (get_index_list_partition 10 3); lia. Defined.

(** The distribution of ten models among three cores, and of none. *)
Example get_index_list_10_3 : get_index_list 10 3 = Ok [0; 4; 7; 10].
Proof. reflexivity. Qed.

Example core_ranges_10_3 : core_ranges [0; 4; 7; 10] = [(0, 4); (4, 7); (7, 10)].
Proof. reflexivity. Qed.

Example get_index_list_0_2 : get_index_list 0 2 = Ok [0; 0; 0].
Proof. reflexivity. Qed.

Example get_index_list_no_core : get_index_list 5 0 = Raise ZeroDivisionError.
Proof. reflexivity. Qed.

(** X1. With at least one core, the slice of a core is empty exactly when
    there are fewer models than cores and the index of the core is at least
    the number of models: with [nmodels >= ncores] every core gets a model,
    and with fewer models the first [nmodels] cores get one each. *)
Theorem get_index_list_empty_ranges (n c : Z) :
  0 ≤ n → 1 ≤ c →
  ∃ index_list,
    get_index_list n c = Ok index_list
    ∧ ∀ (i : nat) r,
        core_ranges index_list !! i = Some r →
        (r.2 = r.1 ↔ n < c ∧ n ≤ Z.of_nat i)
        ∧ (n < c → Z.of_nat i < n → r = (Z.of_nat i, Z.of_nat i + 1)).
Proof.
  intros Hn Hc. eexists. split; [apply get_index_list_closed; lia|].
  intros i r Hr. apply core_ranges_lookup_inv in Hr as [Hi ->]; [|lia].
  simpl. pose proof (boundary_step (n `div` c) (n `mod` c) (Z.of_nat i)) as Hstep.
  destruct (decide (n < c)) as [Hlt|Hge].
  - rewrite Z.div_small, Z.mod_small in * by lia. split.
    + case_decide; lia.
    + intros _ Hin. unfold boundary. f_equal; lia.
  - assert (1 ≤ n `div` c) by (apply Z.div_le_lower_bound; lia).
    split; [|lia]. case_decide; lia.
Qed.

Lemma get_index_list_empty_ranges_witness :
  ∃ index_list,
    get_index_list 2 4 = Ok index_list
    ∧ ∀ (i : nat) r,
        core_ranges index_list !! i = Some r →
        (r.2 = r.1 ↔ 2 < 4 ∧ 2 ≤ Z.of_nat i)
        ∧ (2 < 4 → Z.of_nat i < 2 → r = (Z.of_nat i, Z.of_nat i + 1)).
Proof. apply (get_index_list_empty_ranges 2 4); lia. Defined.

Example get_index_list_2_4 : get_index_list 2 4 = Ok [0; 1; 2; 2; 2].
Proof. reflexivity. Qed.

End Alascan.

(** ** Strings as Python has them *)

(** [str(n)] for an integer. *)
Definition str_int (n : Z) : string := pretty n.

(** [s.split(sep)] for a one-character separator. *)
Fixpoint split_on (sep : ascii) (s : string) : list string :=
  match s with
  | EmptyString => [EmptyString]
  | String c s' =>
      if decide (c = sep) then EmptyString :: split_on sep s'
      else match split_on sep s' with
           | x :: xs => String c x :: xs
           | [] => [String c EmptyString]
           end
  end.

(** [sep.join(l)]. *)
Fixpoint join (sep : string) (l : list string) : string :=
  match l with
  | [] => ""
  | [x] => x
  | x :: xs => x +:+ sep +:+ join sep xs
  end.

(** [repr] of a string free of quotes, backslashes and control characters,
    and of a list of such strings, as an f-string renders them. *)
Definition repr_str (s : string) : string := "'" +:+ s +:+ "'".
Definition repr_list (l : list string) : string :=
  "[" +:+ join ", " (repr_str <$> l) +:+ "]".

(** ** pathlib: pure POSIX paths *)

Module Pathlib.

(** A path is its components, and whether it starts at the root. *)
Record Path : Type := mkPath { anchored : bool; parts : list string }.

#[global] Instance Path_eq_dec : EqDecision Path.
Proof. solve_decision. Defined.

Definition starts_with_slash (s : string) : bool :=
  match s with
  | String c _ => bool_decide (c = "/"%char)
  | EmptyString => false
  end.

Definition proper_part (s : string) : bool :=
  negb (bool_decide (s = "")) && negb (bool_decide (s = ".")).

(** [Path(s)]: empty components and [.] are dropped, [..] is kept. *)
Definition Path_of_string (s : string) : Path :=
  mkPath (starts_with_slash s) (filter (λ c, Is_true (proper_part c)) (split_on "/" s)).

(** [str(p)]. *)
Definition str (p : Path) : string :=
  if anchored p then "/" +:+ join "/" (parts p)
  else match parts p with [] => "." | _ => join "/" (parts p) end.

(** [p.parent]: the root and the empty path are their own parents. *)
Definition parent (p : Path) : Path := mkPath (anchored p) (removelast (parts p)).

(** [p.name]: the last component, empty when there is none. *)
Definition name (p : Path) : string := default "" (last (parts p)).

(** [p / q]: an anchored right operand replaces the left one. *)
Definition join_path (p q : Path) : Path :=
  if anchored q then q else mkPath (anchored p) (parts p ++ parts q).

(** [p / s] for a string [s]. *)
Definition joinpath (p : Path) (s : string) : Path := join_path p (Path_of_string s).

(** [p.absolute()] in the working directory [cwd]. *)
Definition absolute_in (cwd p : Path) : Path :=
  if anchored p then p else mkPath true (parts cwd ++ parts p).

(** Folding [..] into the components before it, as [resolve] does on a file
    system without symbolic links. *)
Definition fold_dotdot (acc : list string) (c : string) : list string :=
  if decide (c = "..") then removelast acc else acc ++ [c].

Definition resolve_in (cwd p : Path) : Path :=
  mkPath true (foldl fold_dotdot [] (parts (absolute_in cwd p))).

End Pathlib.
Import Pathlib.

Example Path_of_string_ex :
  Path_of_string "/run/./step_3//" = mkPath true ["run"; "step_3"].
Proof. reflexivity. Qed.

Example str_parent_ex : str (parent (Path_of_string "/run/step_3")) = "/run".
Proof. reflexivity. Qed.

Example joinpath_ex :
  str (joinpath (Path_of_string "/run") ("step_" +:+ str_int (3 - 1))) = "/run/step_2".
Proof. reflexivity. Qed.

Example resolve_in_ex :
  str (resolve_in (Path_of_string "/home/u") (Path_of_string "run/../run2/step_1"))
  = "/home/u/run2/step_1".
Proof. reflexivity. Qed.

(** ** The text of an integer as a path component *)

Fixpoint every_char (p : ascii → bool) (s : string) : bool :=
  match s with
  | EmptyString => true
  | String c s' => p c && every_char p s'
  end.

Definition digit_or_minus (c : ascii) : bool :=
  let n := nat_of_ascii c in ((48 <=? n)%nat && (n <=? 57)%nat) || bool_decide (c = "-"%char).
Definition not_slash (c : ascii) : bool := negb (bool_decide (c = "/"%char)).
Definition is_dot (c : ascii) : bool := bool_decide (c = "."%char).

Lemma every_char_app p s1 s2 :
  every_char p (s1 +:+ s2) = every_char p s1 && every_char p s2.
Proof. induction s1 as [|c s1 IH]; simpl; [done|]. by rewrite IH, andb_assoc. Qed.

Lemma every_char_impl (p q : ascii → bool) s :
  (∀ c, p c = true → q c = true) → every_char p s = true → every_char q s = true.
Proof.
  intros Hpq. induction s as [|c s IH]; simpl; [done|].
  intros [Hc Hs]%andb_prop. by rewrite (Hpq c Hc), IH.
Qed.

Lemma pretty_N_char_digit x : digit_or_minus (pretty_N_char x) = true.
Proof. unfold pretty_N_char. by repeat case_match. Qed.

Lemma pretty_N_go_chars (x : N) (s : string) :
  every_char digit_or_minus s = true →
  every_char digit_or_minus (pretty_N_go x s) = true.
Proof.
  revert s. induction (N.lt_wf_0 x) as [x _ IH]; intros s Hs.
  destruct (decide (x = 0)%N) as [->|Hx]; [by rewrite pretty_N_go_0|].
  rewrite pretty_N_go_step by lia. apply IH.
  - apply N.div_lt; lia.
  - simpl. by rewrite pretty_N_char_digit.
Qed.

Lemma pretty_N_go_nonempty (x : N) (s : string) : s ≠ "" → pretty_N_go x s ≠ "".
Proof.
  revert s. induction (N.lt_wf_0 x) as [x _ IH]; intros s Hs.
  destruct (decide (x = 0)%N) as [->|Hx]; [by rewrite pretty_N_go_0|].
  rewrite pretty_N_go_step by lia. apply IH; [apply N.div_lt; lia|done].
Qed.

Lemma pretty_N_chars (x : N) : every_char digit_or_minus (pretty x) = true.
Proof.
  unfold pretty, pretty_N. case_decide; [done|]. by apply pretty_N_go_chars.
Qed.

Lemma pretty_N_nonempty (x : N) : pretty x ≠ "".
Proof.
  unfold pretty, pretty_N. case_decide; [done|].
  rewrite pretty_N_go_step by lia. by apply pretty_N_go_nonempty.
Qed.

(** [str(n)] is made of digits and at most a sign, and is not empty. *)
Lemma str_int_chars (n : Z) : every_char digit_or_minus (str_int n) = true.
Proof.
  unfold str_int, pretty, pretty_Z. destruct n as [|x|x]; [done| |].
  - apply pretty_N_chars.
  - simpl. apply pretty_N_chars.
Qed.

Lemma str_int_nonempty (n : Z) : str_int n ≠ "".
Proof.
  unfold str_int, pretty, pretty_Z. destruct n as [|x|x]; [done| |done].
  apply pretty_N_nonempty.
Qed.

Lemma split_on_absent (sep : ascii) (s : string) :
  every_char (λ c, negb (bool_decide (c = sep))) s = true → split_on sep s = [s].
Proof.
  induction s as [|c s IH]; simpl; [done|].
  intros [Hc Hs]%andb_prop. apply negb_true_iff, bool_decide_eq_false in Hc.
  rewrite decide_False by done. by rewrite IH.
Qed.

(** A name without a slash followed by the text of an integer is one
    component of a path, and is neither [.] nor [..]. *)
Lemma numbered_name_component (prefix : string) (n : Z) :
  every_char not_slash prefix = true →
  Path_of_string (prefix +:+ str_int n) = mkPath false [prefix +:+ str_int n]
  ∧ prefix +:+ str_int n ≠ "..".
Proof.
  intros Hprefix.
  assert (Hchars : every_char not_slash (prefix +:+ str_int n) = true).
  { rewrite every_char_app, Hprefix. simpl.
    apply (every_char_impl digit_or_minus); [|apply str_int_chars].
    intros c. unfold digit_or_minus, not_slash.
    intros [[H1 H2]%andb_prop|Hc%bool_decide_eq_true]%orb_prop.
    - apply negb_true_iff, bool_decide_eq_false. intros ->. by vm_compute in H1.
    - by subst c. }
  assert (Hdots : every_char is_dot (prefix +:+ str_int n) = false).
  { rewrite every_char_app. apply andb_false_iff. right.
    pose proof (str_int_chars n) as Hdigits. pose proof (str_int_nonempty n) as Hne.
    destruct (str_int n) as [|c d]; [done|]. simpl in *.
    apply andb_prop in Hdigits as [Hc _]. apply andb_false_iff. left.
    unfold is_dot. apply bool_decide_eq_false. intros ->. by vm_compute in Hc. }
  assert (Hne : prefix +:+ str_int n ≠ "").
  { intros Hempty. by rewrite Hempty in Hdots. }
  split.
  - unfold Path_of_string. rewrite split_on_absent by exact Hchars. f_equal.
    + destruct (prefix +:+ str_int n) as [|c r]; [done|]. simpl in *.
      apply andb_prop in Hchars as [Hc _]. unfold not_slash in Hc.
      by apply negb_true_iff in Hc.
    + rewrite filter_cons_True; [done|]. unfold proper_part.
      rewrite bool_decide_eq_false_2 by done. simpl.
      rewrite bool_decide_eq_false_2; [done|]. intros Hdot. by rewrite Hdot in Hdots.
  - intros Hdd. by rewrite Hdd in Hdots.
Qed.

Lemma foldl_fold_dotdot (acc l : list string) :
  ".." ∉ l → foldl fold_dotdot acc l = acc ++ l.
Proof.
  revert acc. induction l as [|c l IH]; intros acc Hl; simpl.
  - by rewrite app_nil_r.
  - apply not_elem_of_cons in Hl as [Hc Hl]. unfold fold_dotdot at 2.
    rewrite decide_False by done. rewrite IH by done. by rewrite <- app_assoc.
Qed.

(** An anchored path without [..] is its own resolution, wherever the
    working directory is. *)
Lemma resolve_in_resolved (cwd p : Path) :
  anchored p = true → ".." ∉ parts p → resolve_in cwd p = p.
Proof.
  intros Ha Hp. destruct p as [a l]. simpl in *. subst a.
  unfold resolve_in, absolute_in. simpl. by rewrite foldl_fold_dotdot.
Qed.

(** ** The file system, the log and the run's state *)

Inductive node : Type :=
  | File (content : string)
  | Dir.

(** What the operating system answers for a path, [None] when nothing is
    there. *)
Definition FS : Type := Path → option node.

(** [p.exists()] and [p.is_file()]. *)
Definition exists_ (fs : FS) (p : Path) : bool := bool_decide (is_Some (fs p)).
Definition is_file (fs : FS) (p : Path) : bool :=
  match fs p with Some (File _) => true | _ => false end.

(** The directories a path goes through: its proper prefixes, the shortest
    first. The root and the working directory themselves are directories. *)
Definition ancestors (p : Path) : list Path :=
  (λ n, mkPath (anchored p) (take n (parts p))) <$> seq 1 (length (parts p) - 1).

(** Why the system finds nothing at a path: the first directory on the way
    that is not one decides. When it is a regular file the error is
    [ENOTDIR]; when it is not there, or when all of them are directories and
    only the last name is missing, it is [ENOENT]. *)
Fixpoint lookup_failure (fs : FS) (through : list Path) (filename : string) : exn :=
  match through with
  | [] => FileNotFoundError filename
  | q :: rest =>
      match fs q with
      | Some Dir => lookup_failure fs rest filename
      | Some (File _) => NotADirectoryError filename
      | None => FileNotFoundError filename
      end
  end.

(** [open(p).read()]; the exception bears [os.fspath(p)]. *)
Definition open_read (fs : FS) (p : Path) : result string :=
  match fs p with
  | Some (File content) => Ok content
  | Some Dir => Raise (IsADirectoryError (str p))
  | None => Raise (lookup_failure fs (ancestors p) (str p))
  end.

Inductive level : Type := INFO | WARNING | ERROR.

(** A model of the pipeline, with the attributes [_run] reads and writes. *)
Record Model : Type := mkModel {
  file_name : string;
  ori_name : string;
  full_name : string;
  rel_path : Path;
  model_path : string;
}.

(** The state a run threads through: the file system, the log records in
    the order they were emitted, and the models handed to
    [export_output_models], if it was called. *)
Record World : Type := mkWorld {
  fs : FS;
  log : list (level * string);
  exported : option (list Model);
}.

(** Computations that read and change the state and may raise. A raised
    exception keeps the state reached so far. *)
Definition M (A : Type) : Type := World → result A * World.

#[global] Instance M_ret : MRet M := λ A a w, (Ok a, w).
#[global] Instance M_bind : MBind M := λ A B k m w,
  match m w with
  | (Ok a, w') => k a w'
  | (Raise e, w') => (Raise e, w')
  end.

Definition raise {A} (e : exn) : M A := λ w, (Raise e, w).
Definition get_fs : M FS := λ w, (Ok (fs w), w).
Definition emit (l : level) (text : string) : M unit :=
  λ w, (Ok (), mkWorld (fs w) (log w ++ [(l, text)]) (exported w)).
Definition of_result {A} (r : result A) : M A := λ w, (r, w).

(** An external collaborator: it sees and changes the file system only. *)
Definition Ext (A : Type) : Type := FS → result A * FS.
Definition call {A} (f : Ext A) : M A :=
  λ w, let '(r, fs') := f (fs w) in (r, mkWorld fs' (log w) (exported w)).

(** [try: body except FileNotFoundError: raise RecipeError(message)]. *)
Definition recipe_error_if_not_found {A} (message : string) (body : M A) : M A :=
  λ w, match body w with
       | (Raise (FileNotFoundError _), w') => (Raise (RecipeError message), w')
       | other => other
       end.

(** The argument of [finish_with_error]: a string or an exception object. An
    exception object is truthy whatever its text. *)
Inductive message : Type :=
  | Text (s : string)
  | Exception (e : exn).

(** [str(e)]: for an error of the operating system the number of the
    error, its message and the file name; for a missing attribute the class
    of the object and the attribute. *)
Definition exn_str (e : exn) : string :=
  match e with
  | ZeroDivisionError => "integer division or modulo by zero"
  | IndexError => "list index out of range"
  | AttributeError obj a =>
      repr_str obj +:+ " object has no attribute " +:+ repr_str a
  | FileNotFoundError f => "[Errno 2] No such file or directory: " +:+ repr_str f
  | IsADirectoryError f => "[Errno 21] Is a directory: " +:+ repr_str f
  | NotADirectoryError f => "[Errno 20] Not a directory: " +:+ repr_str f
  | RecipeError m => m
  | SystemExit => ""
  | ConfigSyntaxError m => m
  | OtherError m => m
  end.

Example exn_str_ex :
  exn_str (FileNotFoundError "/run/no_manifest")
  = "[Errno 2] No such file or directory: '/run/no_manifest'"
  ∧ exn_str (AttributeError "HaddockModule" "defaults_path")
    = "'HaddockModule' object has no attribute 'defaults_path'".
Proof. split; reflexivity. Qed.

Definition truthy (m : message) : bool :=
  match m with Text s => negb (bool_decide (s = "")) | Exception _ => true end.
Definition message_str (m : message) : string :=
  match m with Text s => s | Exception e => exn_str e end.

(** ** haddock/modules/__init__.py: [BaseHaddockModule] *)

Section BaseModule.

(** The constants of [haddock.defaults]. *)
Variables MODULE_PATH_NAME MODULE_IO_FILE TOPOLOGY_PATH : string.

(** [type(self).__name__]: the class the instance is made from,
    [BaseHaddockModule] or one derived from it. *)
Variable class_name : string.

(** [Path.resolve] and [Path.absolute], which depend on the working
    directory and on the links of the machine. *)
Variables resolve absolute : Path → Path.

(** [haddock.ontology.ModuleIO]: the manifest object, its constructor
    [ModuleIO()] and its [load] method, which fills the object from a file
    and may raise. *)
Variable ModuleIO : Type.
Variable ModuleIO_new : ModuleIO.
Variable ModuleIO_load : ModuleIO → FS → Path → result ModuleIO.

(** [toml.loads]: the parsed defaults, or the library's exception. *)
Variable Defaults : Type.
Variable toml_loads : string → result Defaults.

(** [toml.load(path)] opens the file and parses what it reads. *)
Definition toml_load (fs : FS) (p : Path) : result Defaults :=
  match open_read fs p with
  | Ok content => toml_loads content
  | Raise e => Raise e
  end.

(** The attributes of an instance once [__init__] has returned. The three
    paths are set only when the matching argument was given. *)
Record BaseHaddockModule : Type := mkBaseHaddockModule {
  order : Z;
  path : Path;
  previous_io : ModuleIO;
  cns_folder_path : option Path;
  cns_recipe_path : option Path;
  defaults_path : option Path;
  recipe_str : string;
  defaults : Defaults;
}.

(** [previous_path] reads [self.order] and [self.path] and nothing else. *)
Definition previous_path (order : Z) (path : Path) : Path :=
  if decide (order > 1) then
    joinpath (absolute (parent (resolve path))) (MODULE_PATH_NAME +:+ str_int (order - 1))
  else if decide (order = 1) then
    joinpath (absolute (parent (resolve path))) TOPOLOGY_PATH
  else path.

(** The method on a constructed instance. *)
Definition previous_path_of (self : BaseHaddockModule) : Path :=
  previous_path (order self) (path self).

Definition _load_previous_io (order : Z) (path : Path) : M ModuleIO :=
  if decide (order = 0) then mret ModuleIO_new
  else
    let io := ModuleIO_new in
    let previous_io := joinpath (previous_path order path) MODULE_IO_FILE in
    fs ← get_fs;
    if is_file fs previous_io
    then of_result (ModuleIO_load io fs previous_io)
    else mret io.

(** [BaseHaddockModule(order, path, cns_script, cns_defaults)]; an argument
    left at its default [""] is [None]. *)
Definition __init__ (order : Z) (path : Path)
    (cns_script cns_defaults : option Path) : M BaseHaddockModule :=
  previous_io ← _load_previous_io order path;
  let cns_folder_path := (λ s, absolute (parent (resolve s))) <$> cns_script in
  let cns_recipe_path := cns_script in
  let defaults_path := cns_defaults in
  recipe_str ←
    match cns_recipe_path with
    | None => raise (AttributeError class_name "cns_recipe_path")
    | Some recipe =>
        recipe_error_if_not_found ("Error while opening recipe " +:+ str recipe)
          (fs ← get_fs; of_result (open_read fs recipe))
    end;
  defaults ←
    match defaults_path with
    | None => raise (AttributeError class_name "defaults_path")
    | Some source =>
        recipe_error_if_not_found ("Error while opening defaults " +:+ str source)
          (fs ← get_fs; of_result (toml_load fs source))
    end;
  mret (mkBaseHaddockModule order path previous_io cns_folder_path
          cns_recipe_path defaults_path recipe_str defaults).

(** [finish_with_error]: log the message, an empty one replaced by the
    stock text, and leave through [SystemExit]. *)
Definition finish_with_error {A} (msg : message) : M A :=
  let msg := if truthy msg then msg else Text "Module has failed" in
  _ ← emit ERROR (message_str msg);
  raise SystemExit.

(** Loading the predecessor's manifest reads the state and leaves it as it
    was. *)
Lemma load_previous_io_pure (k : Z) (p : Path) (w : World) :
  ∃ r, _load_previous_io k p w = (r, w).
Proof.
  unfold _load_previous_io. case_decide; [by eexists|].
  unfold mbind, M_bind, get_fs. case_match; by eexists.
Qed.

Ltac unfold_M :=
  unfold mbind, M_bind, mret, M_ret, raise, get_fs, of_result,
    recipe_error_if_not_found in *.

(** C10. For an ordinal [k <= 0], [previous_path] returns the step's own
    working directory unchanged; and for ordinal 0 the predecessor manifest
    that [_load_previous_io] returns is the fresh [ModuleIO()] in every
    state, the file system playing no part. *)
Theorem previous_path_setup_phase (k : Z) (p : Path) :
  k ≤ 0 →
  previous_path k p = p
  ∧ _load_previous_io 0 p = mret ModuleIO_new
  ∧ ∀ w, _load_previous_io 0 p w = (Ok ModuleIO_new, w).
Proof.
  intros Hk. split; [|split].
  - unfold previous_path. repeat case_decide; (done || lia).
  - reflexivity.
  - reflexivity.
Qed.

(** C2, as the code has it. When the ordinal is 0, or when the manifest file
    of the predecessor is not there, [_load_previous_io] returns the empty
    manifest [ModuleIO()] and raises nothing, for every ordinal; and the
    construction then goes on with that empty manifest: with a readable
    recipe and readable defaults it returns the instance. *)
Theorem load_previous_io_missing_manifest (k : Z) (p : Path) (w : World) :
  k = 0 ∨ is_file (fs w) (joinpath (previous_path k p) MODULE_IO_FILE) = false →
  _load_previous_io k p w = (Ok ModuleIO_new, w)
  ∧ ∀ recipe source text d,
      fs w recipe = Some (File text) →
      toml_load (fs w) source = Ok d →
      __init__ k p (Some recipe) (Some source) w
      = (Ok (mkBaseHaddockModule k p ModuleIO_new
               (Some (absolute (parent (resolve recipe))))
               (Some recipe) (Some source) text d), w).
Proof.
  intros Hmissing.
  assert (Hload : _load_previous_io k p w = (Ok ModuleIO_new, w)).
  { unfold _load_previous_io. case_decide; [done|].
    destruct Hmissing as [?|Hfile]; [done|].
    unfold_M. by rewrite Hfile. }
  split; [done|].
  intros recipe source text d Hrecipe Hdefaults.
  unfold __init__. unfold mbind at 1. unfold M_bind at 1. rewrite Hload.
  unfold_M. unfold open_read. rewrite Hrecipe. by rewrite Hdefaults.
Qed.

(** What [except FileNotFoundError: raise RecipeError(message)] makes of an
    exception: that class is replaced, any other goes through. *)
Definition or_recipe_error (message : string) (e : exn) : exn :=
  match e with
  | FileNotFoundError _ => RecipeError message
  | _ => e
  end.

Lemma recipe_error_if_not_found_raise {A} (message : string) (body : M A) w e w' :
  body w = (Raise e, w') →
  recipe_error_if_not_found message body w = (Raise (or_recipe_error message e), w').
Proof. intros Hbody. unfold recipe_error_if_not_found. rewrite Hbody. by destruct e. Qed.

Lemma recipe_error_if_not_found_ok {A} (message : string) (body : M A) w a w' :
  body w = (Ok a, w') → recipe_error_if_not_found message body w = (Ok a, w').
Proof. intros Hbody. unfold recipe_error_if_not_found. by rewrite Hbody. Qed.

Lemma open_read_missing (fs : FS) (p : Path) :
  fs p = None → ∃ e, open_read fs p = Raise e.
Proof. intros Hnone. unfold open_read. rewrite Hnone. by eexists. Qed.

(** What the construction does once the predecessor manifest is loaded, by
    the outcome of the two readings. *)
Lemma init_after_load (k : Z) (p : Path) (cns_script cns_defaults : option Path)
    (w : World) (io : ModuleIO) :
  _load_previous_io k p w = (Ok io, w) →
  __init__ k p cns_script cns_defaults w
  = match cns_script with
    | None => (Raise (AttributeError class_name "cns_recipe_path"), w)
    | Some recipe =>
        match open_read (fs w) recipe with
        | Raise e0 =>
            (Raise (or_recipe_error ("Error while opening recipe " +:+ str recipe) e0), w)
        | Ok text =>
            match cns_defaults with
            | None => (Raise (AttributeError class_name "defaults_path"), w)
            | Some source =>
                match toml_load (fs w) source with
                | Raise e0 =>
                    (Raise (or_recipe_error
                              ("Error while opening defaults " +:+ str source) e0), w)
                | Ok d =>
                    (Ok (mkBaseHaddockModule k p io
                           ((λ s, absolute (parent (resolve s))) <$> cns_script)
                           cns_script cns_defaults text d), w)
                end
            end
        end
    end.
Proof.
  intros Hload. unfold __init__. unfold mbind at 1. unfold M_bind at 1. rewrite Hload.
  destruct cns_script as [recipe|]; [|done].
  unfold mbind at 1. unfold M_bind at 1.
  destruct (open_read (fs w) recipe) as [text|e0] eqn:Hopen.
  - rewrite (recipe_error_if_not_found_ok _ _ w text w)
      by (unfold_M; by rewrite Hopen).
    destruct cns_defaults as [source|]; [|done].
    unfold mbind at 1. unfold M_bind at 1.
    destruct (toml_load (fs w) source) as [d|e0] eqn:Htoml.
    + by rewrite (recipe_error_if_not_found_ok _ _ w d w)
        by (unfold_M; by rewrite Htoml).
    + by rewrite (recipe_error_if_not_found_raise _ _ w e0 w)
        by (unfold_M; by rewrite Htoml).
  - by rewrite (recipe_error_if_not_found_raise _ _ w e0 w)
      by (unfold_M; by rewrite Hopen).
Qed.

(** C8, as the code has it. When the recipe given to the constructor is not
    there, or the defaults source given to it is not there, the construction
    raises and leaves the state as it was, and whatever is to run on the
    instance afterwards does not run. The exception is the one of the first
    step that fails: that of loading the predecessor manifest; an
    [AttributeError] for an argument left out; and for a file that cannot be
    opened a [RecipeError] naming it when the opening raised
    [FileNotFoundError], and the exception of the opening itself otherwise
    ([IsADirectoryError], or [NotADirectoryError] for a path that goes
    through a regular file). *)
Theorem init_recipe_error (k : Z) (p : Path) (cns_script cns_defaults : option Path)
    (w : World) :
  (∃ recipe, cns_script = Some recipe ∧ fs w recipe = None)
  ∨ (∃ source, cns_defaults = Some source ∧ fs w source = None) →
  ∃ e,
    __init__ k p cns_script cns_defaults w = (Raise e, w)
    ∧ (∀ B (run : BaseHaddockModule → M B),
          (__init__ k p cns_script cns_defaults ≫= run) w = (Raise e, w))
    ∧ (∀ e0, _load_previous_io k p w = (Raise e0, w) → e = e0)
    ∧ (∀ io, _load_previous_io k p w = (Ok io, w) →
          (cns_script = None → e = AttributeError class_name "cns_recipe_path")
          ∧ (∀ recipe e0,
                cns_script = Some recipe → open_read (fs w) recipe = Raise e0 →
                e = match e0 with
                    | FileNotFoundError _ =>
                        RecipeError ("Error while opening recipe " +:+ str recipe)
                    | _ => e0
                    end)
          ∧ (∀ recipe text,
                cns_script = Some recipe → fs w recipe = Some (File text) →
                (cns_defaults = None → e = AttributeError class_name "defaults_path")
                ∧ (∀ source e0,
                      cns_defaults = Some source →
                      toml_load (fs w) source = Raise e0 →
                      e = match e0 with
                          | FileNotFoundError _ =>
                              RecipeError ("Error while opening defaults " +:+ str source)
                          | _ => e0
                          end))).
Proof.
  intros Hmissing.
  assert (Hinit : ∃ e, __init__ k p cns_script cns_defaults w = (Raise e, w)).
  { destruct (load_previous_io_pure k p w) as [[io|e0] Hload].
    - rewrite (init_after_load _ _ _ _ _ _ Hload).
      destruct cns_script as [recipe|]; [|by eexists].
      destruct (open_read (fs w) recipe) as [text|e0] eqn:Hopen; [|by eexists].
      destruct cns_defaults as [source|]; [|by eexists].
      destruct (toml_load (fs w) source) as [d|e0] eqn:Htoml; [|by eexists].
      exfalso. destruct Hmissing as [(r & [= <-] & Hnone)|(s & [= <-] & Hnone)].
      + destruct (open_read_missing _ _ Hnone) as [e Hraise]. congruence.
      + unfold toml_load in Htoml.
        destruct (open_read_missing _ _ Hnone) as [e Hraise].
        by rewrite Hraise in Htoml.
    - exists e0. unfold __init__. unfold mbind at 1. unfold M_bind at 1.
      by rewrite Hload. }
  destruct Hinit as [e Hinit]. exists e. split; [done|]. split.
  { intros B run. unfold mbind at 1. unfold M_bind at 1. by rewrite Hinit. }
  split.
  { intros e0 Hload. unfold __init__ in Hinit. unfold mbind at 1 in Hinit.
    unfold M_bind at 1 in Hinit. rewrite Hload in Hinit. congruence. }
  intros io Hload. rewrite (init_after_load _ _ _ _ _ _ Hload) in Hinit.
  split; [|split].
  - intros ->. congruence.
  - intros recipe e0 -> Hopen. rewrite Hopen in Hinit.
    injection Hinit as <-. by destruct e0.
  - intros recipe text -> Hfile.
    assert (Hopen : open_read (fs w) recipe = Ok text)
      by (unfold open_read; by rewrite Hfile).
    rewrite Hopen in Hinit. split.
    + intros ->. congruence.
    + intros source e0 -> Htoml. rewrite Htoml in Hinit.
      injection Hinit as <-. by destruct e0.
Qed.

(** *** More on the construction and on the addressing *)

(** X9. The construction only reads: whatever its arguments and whether it
    returns an instance or raises, the state after it is the state before
    it. No file is written and nothing is logged. *)
Theorem init_reads_only (k : Z) (p : Path) (cns_script cns_defaults : option Path)
    (w : World) :
  ∃ r, __init__ k p cns_script cns_defaults w = (r, w).
Proof.
  unfold __init__. unfold mbind at 1. unfold M_bind at 1.
  destruct (load_previous_io_pure k p w) as [[io|e] ->]; [|by eexists].
  unfold_M. destruct cns_script as [recipe|]; [|by eexists].
  destruct (open_read (fs w) recipe) as [text|e]; [|destruct e; by eexists].
  destruct cns_defaults as [source|]; [|by eexists].
  destruct (toml_load (fs w) source) as [d|e]; [|destruct e]; by eexists.
Qed.

(** X10. The two paths are attributes that the constructor sets only when
    the matching argument is given. With the recipe argument left out the
    construction raises, and the exception is the [AttributeError] of
    [cns_recipe_path] once the predecessor manifest is loaded; with a
    readable recipe and the defaults argument left out it is the
    [AttributeError] of [defaults_path]. No instance is ever returned with
    an argument left out. *)
Theorem init_missing_argument (k : Z) (p : Path) (cns_script cns_defaults : option Path)
    (w : World) :
  cns_script = None ∨ cns_defaults = None →
  ∃ e,
    __init__ k p cns_script cns_defaults w = (Raise e, w)
    ∧ (∀ io, _load_previous_io k p w = (Ok io, w) →
         (cns_script = None → e = AttributeError class_name "cns_recipe_path")
         ∧ (∀ recipe text,
              cns_script = Some recipe → fs w recipe = Some (File text) →
              e = AttributeError class_name "defaults_path")).
Proof.
  intros Hmissing.
  destruct (load_previous_io_pure k p w) as [[io|e] Hload].
  - rewrite (init_after_load _ _ _ _ _ _ Hload).
    destruct cns_script as [recipe|].
    + destruct Hmissing as [Hnone | ->]; [done|].
      destruct (open_read (fs w) recipe) as [text|e0] eqn:Hopen.
      * eexists. split; [done|]. intros _ _. by split.
      * eexists. split; [done|]. intros _ _. split; [done|].
        intros r t [= <-] Hfile. unfold open_read in Hopen.
        by rewrite Hfile in Hopen.
    + eexists. split; [done|]. intros _ _. by split.
  - exists e. split.
    + unfold __init__. unfold mbind at 1. unfold M_bind at 1. by rewrite Hload.
    + intros io Hio. congruence.
Qed.

(** X11. Only a file that is not there becomes a [RecipeError]. A recipe
    path that is a directory leaves the construction with
    [IsADirectoryError], and so does a defaults path that is a directory
    when the recipe is readable; the exception bears the name of the
    directory. *)
Theorem init_directory_is_not_recipe_error (k : Z) (p recipe : Path)
    (cns_defaults : option Path) (w : World) (io : ModuleIO) :
  _load_previous_io k p w = (Ok io, w) →
  fs w recipe = Some Dir
  ∨ (∃ text source,
        fs w recipe = Some (File text) ∧ cns_defaults = Some source
        ∧ fs w source = Some Dir) →
  ∃ filename,
    __init__ k p (Some recipe) cns_defaults w = (Raise (IsADirectoryError filename), w)
    ∧ (fs w recipe = Some Dir → filename = str recipe)
    ∧ (∀ source, fs w recipe ≠ Some Dir → cns_defaults = Some source →
         filename = str source).
Proof.
  intros Hload Hdir. rewrite (init_after_load _ _ _ _ _ _ Hload).
  unfold toml_load, open_read.
  destruct Hdir as [Hrecipe|(text & source & Hrecipe & -> & Hsource)].
  - rewrite Hrecipe. eexists. split; [done|]. split; [done|]. by intros source Hne.
  - rewrite Hrecipe, Hsource. eexists. split; [done|].
    split; [intros Habs; congruence|]. by intros source' _ [= <-].
Qed.

Lemma parent_joinpath_numbered (rundir : Path) (n : Z) :
  every_char not_slash MODULE_PATH_NAME = true →
  parent (joinpath rundir (MODULE_PATH_NAME +:+ str_int n)) = rundir.
Proof.
  intros Hname. destruct (numbered_name_component _ n Hname) as [Hpath _].
  unfold joinpath. rewrite Hpath. unfold join_path, parent. simpl.
  rewrite removelast_last. by destruct rundir.
Qed.

(** X12. Steps that work in the directories of one run, each named by
    [MODULE_PATH_NAME] (a name without a slash) and its ordinal, are chained
    by [previous_path]: for the step of ordinal [k + 1 >= 2], working in a
    resolved directory under an absolute run directory, it is the directory
    of the step of ordinal [k]; for the step of ordinal 1 it is
    [TOPOLOGY_PATH] in the run directory. *)
Theorem previous_path_is_previous_step (rundir : Path) (k : Z) :
  let step j := joinpath rundir (MODULE_PATH_NAME +:+ str_int j) in
  every_char not_slash MODULE_PATH_NAME = true →
  1 ≤ k →
  absolute rundir = rundir →
  resolve (step (k + 1)) = step (k + 1) →
  resolve (step 1) = step 1 →
  previous_path (k + 1) (step (k + 1)) = step k
  ∧ previous_path 1 (step 1) = joinpath rundir TOPOLOGY_PATH.
Proof.
  intros step Hname Hk Habs Hres Hres1. unfold previous_path, step in *.
  rewrite Hres, Hres1, !parent_joinpath_numbered, Habs by done.
  split.
  - rewrite decide_True by lia. do 3 f_equal. lia.
  - rewrite decide_False by lia. by rewrite decide_True.
Qed.

(** X13. With a step name without a slash, two steps of different ordinals
    above 1 that work in the same directory never get the same predecessor
    directory. *)
Theorem previous_path_injective (j k : Z) (p : Path) :
  every_char not_slash MODULE_PATH_NAME = true →
  1 < j → 1 < k →
  previous_path j p = previous_path k p → j = k.
Proof.
  intros Hname Hj Hk. unfold previous_path.
  rewrite !decide_True by lia. unfold joinpath.
  destruct (numbered_name_component _ (j - 1) Hname) as [-> _].
  destruct (numbered_name_component _ (k - 1) Hname) as [-> _].
  unfold join_path. simpl. intros [= Heq%app_inv_head].
  injection Heq as Heq. apply String.app_inj in Heq.
  unfold str_int in Heq. apply (inj pretty) in Heq. lia.
Qed.

End BaseModule.

(** ** A concrete run directory *)

(** An environment to evaluate the embedding in: sample values for the
    constants of [haddock.defaults], a working directory without symbolic
    links, a manifest that is the list of the lines of its file, and
    defaults kept as the text of their source. *)
Module Sample.

Definition cwd : Path := Path_of_string "/home/user".
Definition resolve : Path → Path := resolve_in cwd.
Definition absolute : Path → Path := absolute_in cwd.

Definition ModuleIO : Type := list string.
Definition ModuleIO_new : ModuleIO := [].
Definition ModuleIO_load (io : ModuleIO) (fs : FS) (p : Path) : result ModuleIO :=
  match open_read fs p with
  | Ok content => Ok (io ++ split_on "010"%char content)
  | Raise e => Raise e
  end.

Definition toml_loads (content : string) : result string := Ok content.

Definition step (n : Z) : Path := Path_of_string ("/run/step_" +:+ str_int n).
Definition recipe : Path := Path_of_string "/pkg/cns/recipe.cns".
Definition source : Path := Path_of_string "/pkg/cns/defaults.toml".

(** A run directory where step 2 wrote its manifest and nothing else did;
    the recipe is installed and the defaults are or are not. *)
Definition disk (with_defaults : bool) : FS := λ p,
  if decide (p = Path_of_string "/run/step_2/io.json") then Some (File "a.pdb")
  else if decide (p = recipe) then Some (File "evaluate ($x = 1)")
  else if decide (p = source) then
    if with_defaults then Some (File "ncores = 2") else None
  else if decide (p ∈ Path_of_string <$> ["/pkg"; "/pkg/cns"; "/run"; "/run/step_2"])
  then Some Dir
  else None.

Definition world (with_defaults : bool) : World := mkWorld (disk with_defaults) [] None.

Definition previous_path : Z → Path → Path :=
  previous_path "step_" "topology" resolve absolute.
Definition load_previous_io : Z → Path → M ModuleIO :=
  _load_previous_io "step_" "io.json" "topology" resolve absolute
    ModuleIO ModuleIO_new ModuleIO_load.
Definition init : Z → Path → option Path → option Path → M (BaseHaddockModule ModuleIO string) :=
  __init__ "step_" "io.json" "topology" "BaseHaddockModule" resolve absolute
    ModuleIO ModuleIO_new ModuleIO_load string toml_loads.

End Sample.

Example previous_path_of_step_3 : str (Sample.previous_path 3 (Sample.step 3)) = "/run/step_2".
Proof. reflexivity. Qed.

Example previous_path_of_step_1 : str (Sample.previous_path 1 (Sample.step 1)) = "/run/topology".
Proof. reflexivity. Qed.

Example previous_path_of_step_0 : Sample.previous_path 0 (Sample.step 0) = Sample.step 0.
Proof. reflexivity. Qed.

Example previous_path_of_step_12 : str (Sample.previous_path 12 (Sample.step 12)) = "/run/step_11".
Proof. reflexivity. Qed.

Example load_previous_io_of_step_3 :
  Sample.load_previous_io 3 (Sample.step 3) (Sample.world true)
  = (Ok ["a.pdb"], Sample.world true).
Proof. reflexivity. Qed.

Lemma previous_path_setup_phase_witness :
  0 ≤ 0
  ∧ Sample.previous_path 0 (Sample.step 0) = Sample.step 0
  ∧ Sample.load_previous_io 0 (Sample.step 0) = mret Sample.ModuleIO_new
  ∧ ∀ w, Sample.load_previous_io 0 (Sample.step 0) w = (Ok Sample.ModuleIO_new, w).
Proof.
  split; [lia|].
  apply (previous_path_setup_phase "step_" "io.json" "topology" Sample.resolve
           Sample.absolute Sample.ModuleIO Sample.ModuleIO_new Sample.ModuleIO_load
           0 (Sample.step 0)).
  lia.
Defined.

(** C2 as the specification words it fails on the code. Step 1 of the
    sample run has no manifest in [/run/topology], and its construction
    returns the instance, with the empty manifest, instead of raising. *)
Lemma missing_manifest_is_not_fatal :
  1 ≤ 1
  ∧ is_file (fs (Sample.world true))
      (joinpath (Sample.previous_path 1 (Sample.step 1)) "io.json") = false
  ∧ Sample.init 1 (Sample.step 1) (Some Sample.recipe) (Some Sample.source)
      (Sample.world true)
    = (Ok (mkBaseHaddockModule _ _ 1 (Sample.step 1) Sample.ModuleIO_new
             (Some (Path_of_string "/pkg/cns")) (Some Sample.recipe)
             (Some Sample.source) "evaluate ($x = 1)" "ncores = 2"),
       Sample.world true)
  ∧ ¬ ∃ e, (Sample.init 1 (Sample.step 1) (Some Sample.recipe) (Some Sample.source)
              (Sample.world true)).1 = Raise e.
Proof.
  split; [lia|]. split; [reflexivity|]. split; [reflexivity|].
  intros [e He]. vm_compute in He. discriminate He.
Qed.

Lemma load_previous_io_missing_manifest_witness :
  (1 = 0 ∨ is_file (fs (Sample.world true))
             (joinpath (Sample.previous_path 1 (Sample.step 1)) "io.json") = false)
  ∧ Sample.load_previous_io 1 (Sample.step 1) (Sample.world true)
    = (Ok Sample.ModuleIO_new, Sample.world true)
  ∧ ∀ recipe source text d,
      fs (Sample.world true) recipe = Some (File text) →
      toml_load string Sample.toml_loads (fs (Sample.world true)) source = Ok d →
      Sample.init 1 (Sample.step 1) (Some recipe) (Some source) (Sample.world true)
      = (Ok (mkBaseHaddockModule _ _ 1 (Sample.step 1) Sample.ModuleIO_new
               (Some (Sample.absolute (parent (Sample.resolve recipe))))
               (Some recipe) (Some source) text d), Sample.world true).
Proof.
  assert (Hmissing : 1 = 0 ∨ is_file (fs (Sample.world true))
             (joinpath (Sample.previous_path 1 (Sample.step 1)) "io.json") = false)
    by (right; reflexivity).
  split; [exact Hmissing|].
  exact (load_previous_io_missing_manifest "step_" "io.json" "topology"
           "BaseHaddockModule" Sample.resolve Sample.absolute Sample.ModuleIO Sample.ModuleIO_new
           Sample.ModuleIO_load string Sample.toml_loads
           1 (Sample.step 1) (Sample.world true) Hmissing).
Defined.

Example init_without_defaults :
  Sample.init 3 (Sample.step 3) (Some Sample.recipe) (Some Sample.source)
    (Sample.world false)
  = (Raise (RecipeError "Error while opening defaults /pkg/cns/defaults.toml"),
     Sample.world false).
Proof. reflexivity. Qed.

Example init_without_recipe :
  Sample.init 3 (Sample.step 3) (Some (Path_of_string "/pkg/cns/none.cns"))
    (Some Sample.source) (Sample.world true)
  = (Raise (RecipeError "Error while opening recipe /pkg/cns/none.cns"),
     Sample.world true).
Proof. reflexivity. Qed.

(** Without a recipe argument the attribute is never set, and reading it is
    what fails. *)
Example init_without_argument :
  (Sample.init 3 (Sample.step 3) None (Some Sample.source) (Sample.world true)).1
  = Raise (AttributeError "BaseHaddockModule" "cns_recipe_path").
Proof. reflexivity. Qed.

(** C8 as the specification words it fails on the code. The defaults are
    not installed, so the defaults source cannot be opened: a construction
    that is given no recipe leaves with [AttributeError], and one whose
    recipe is a directory with [IsADirectoryError]. A recipe path that goes
    through the regular file [recipe.cns] is not there either, and the
    construction leaves with [NotADirectoryError]. None of the three is a
    [RecipeError]. *)
Lemma missing_file_is_not_always_recipe_error :
  fs (Sample.world false) Sample.source = None
  ∧ Sample.init 3 (Sample.step 3) None (Some Sample.source) (Sample.world false)
    = (Raise (AttributeError "BaseHaddockModule" "cns_recipe_path"), Sample.world false)
  ∧ Sample.init 3 (Sample.step 3) (Some (Path_of_string "/pkg/cns"))
      (Some Sample.source) (Sample.world false)
    = (Raise (IsADirectoryError "/pkg/cns"), Sample.world false)
  ∧ fs (Sample.world true) (Path_of_string "/pkg/cns/recipe.cns/main.cns") = None
  ∧ Sample.init 3 (Sample.step 3) (Some (Path_of_string "/pkg/cns/recipe.cns/main.cns"))
      (Some Sample.source) (Sample.world true)
    = (Raise (NotADirectoryError "/pkg/cns/recipe.cns/main.cns"), Sample.world true).
Proof. repeat split; reflexivity. Qed.

Lemma init_recipe_error_witness :
  ((∃ recipe, Some Sample.recipe = Some recipe ∧ fs (Sample.world false) recipe = None)
   ∨ (∃ source, Some Sample.source = Some source
                ∧ fs (Sample.world false) source = None))
  ∧ ∃ e,
      Sample.init 3 (Sample.step 3) (Some Sample.recipe) (Some Sample.source)
        (Sample.world false) = (Raise e, Sample.world false)
      ∧ (∀ B (run : BaseHaddockModule Sample.ModuleIO string → M B),
            (Sample.init 3 (Sample.step 3) (Some Sample.recipe) (Some Sample.source)
               ≫= run) (Sample.world false) = (Raise e, Sample.world false))
      ∧ (∀ e0, Sample.load_previous_io 3 (Sample.step 3) (Sample.world false)
                = (Raise e0, Sample.world false) → e = e0)
      ∧ (∀ io, Sample.load_previous_io 3 (Sample.step 3) (Sample.world false)
                = (Ok io, Sample.world false) →
            (Some Sample.recipe = None →
               e = AttributeError "BaseHaddockModule" "cns_recipe_path")
            ∧ (∀ recipe e0,
                  Some Sample.recipe = Some recipe →
                  open_read (fs (Sample.world false)) recipe = Raise e0 →
                  e = match e0 with
                      | FileNotFoundError _ =>
                          RecipeError ("Error while opening recipe " +:+ str recipe)
                      | _ => e0
                      end)
            ∧ (∀ recipe text,
                  Some Sample.recipe = Some recipe →
                  fs (Sample.world false) recipe = Some (File text) →
                  (Some Sample.source = None →
                     e = AttributeError "BaseHaddockModule" "defaults_path")
                  ∧ (∀ source e0,
                        Some Sample.source = Some source →
                        toml_load string Sample.toml_loads (fs (Sample.world false)) source
                        = Raise e0 →
                        e = match e0 with
                            | FileNotFoundError _ =>
                                RecipeError ("Error while opening defaults " +:+ str source)
                            | _ => e0
                            end))).
Proof.
  assert (Hmissing :
    (∃ recipe, Some Sample.recipe = Some recipe ∧ fs (Sample.world false) recipe = None)
    ∨ (∃ source, Some Sample.source = Some source
                 ∧ fs (Sample.world false) source = None)).
  { right. exists Sample.source. split; reflexivity. }
  split; [exact Hmissing|].
  exact (init_recipe_error "step_" "io.json" "topology" "BaseHaddockModule"
           Sample.resolve Sample.absolute Sample.ModuleIO Sample.ModuleIO_new
           Sample.ModuleIO_load string Sample.toml_loads 3 (Sample.step 3)
           (Some Sample.recipe) (Some Sample.source) (Sample.world false) Hmissing).
Defined.

Lemma init_missing_argument_witness :
  (Some Sample.recipe = None ∨ @None Path = None)
  ∧ ∃ e,
      Sample.init 3 (Sample.step 3) (Some Sample.recipe) None (Sample.world true)
      = (Raise e, Sample.world true)
      ∧ (∀ io, Sample.load_previous_io 3 (Sample.step 3) (Sample.world true)
                = (Ok io, Sample.world true) →
           (Some Sample.recipe = None →
              e = AttributeError "BaseHaddockModule" "cns_recipe_path")
           ∧ (∀ recipe text,
                Some Sample.recipe = Some recipe →
                fs (Sample.world true) recipe = Some (File text) →
                e = AttributeError "BaseHaddockModule" "defaults_path")).
Proof.
  assert (Hmissing : Some Sample.recipe = None ∨ @None Path = None) by (by right).
  split; [exact Hmissing|].
  exact (init_missing_argument "step_" "io.json" "topology" "BaseHaddockModule"
           Sample.resolve Sample.absolute Sample.ModuleIO Sample.ModuleIO_new Sample.ModuleIO_load
           string Sample.toml_loads 3 (Sample.step 3) (Some Sample.recipe) None
           (Sample.world true) Hmissing).
Defined.

Example init_without_defaults_argument :
  Sample.init 3 (Sample.step 3) (Some Sample.recipe) None (Sample.world true)
  = (Raise (AttributeError "BaseHaddockModule" "defaults_path"), Sample.world true).
Proof. reflexivity. Qed.

Lemma init_directory_is_not_recipe_error_witness :
  Sample.load_previous_io 3 (Sample.step 3) (Sample.world true)
  = (Ok ["a.pdb"], Sample.world true)
  ∧ (fs (Sample.world true) (Path_of_string "/pkg/cns") = Some Dir
     ∨ (∃ text source,
           fs (Sample.world true) (Path_of_string "/pkg/cns") = Some (File text)
           ∧ Some Sample.source = Some source
           ∧ fs (Sample.world true) source = Some Dir))
  ∧ ∃ filename,
      Sample.init 3 (Sample.step 3) (Some (Path_of_string "/pkg/cns"))
        (Some Sample.source) (Sample.world true)
      = (Raise (IsADirectoryError filename), Sample.world true)
      ∧ (fs (Sample.world true) (Path_of_string "/pkg/cns") = Some Dir →
           filename = str (Path_of_string "/pkg/cns"))
      ∧ (∀ source,
            fs (Sample.world true) (Path_of_string "/pkg/cns") ≠ Some Dir →
            Some Sample.source = Some source → filename = str source).
Proof.
  assert (Hload : Sample.load_previous_io 3 (Sample.step 3) (Sample.world true)
                  = (Ok ["a.pdb"], Sample.world true)) by reflexivity.
  assert (Hdir : fs (Sample.world true) (Path_of_string "/pkg/cns") = Some Dir
     ∨ (∃ text source,
           fs (Sample.world true) (Path_of_string "/pkg/cns") = Some (File text)
           ∧ Some Sample.source = Some source
           ∧ fs (Sample.world true) source = Some Dir)) by (left; reflexivity).
  split; [exact Hload|]. split; [exact Hdir|].
  exact (init_directory_is_not_recipe_error "step_" "io.json" "topology"
           "BaseHaddockModule" Sample.resolve Sample.absolute Sample.ModuleIO
           Sample.ModuleIO_new Sample.ModuleIO_load string Sample.toml_loads
           3 (Sample.step 3) (Path_of_string "/pkg/cns") (Some Sample.source)
           (Sample.world true) ["a.pdb"] Hload Hdir).
Defined.

Example init_with_a_directory_as_recipe :
  Sample.init 3 (Sample.step 3) (Some (Path_of_string "/pkg/cns"))
    (Some Sample.source) (Sample.world true)
  = (Raise (IsADirectoryError "/pkg/cns"), Sample.world true).
Proof. reflexivity. Qed.

Lemma previous_path_is_previous_step_witness :
  every_char not_slash "step_" = true
  ∧ 1 ≤ 2
  ∧ Sample.absolute (Path_of_string "/run") = Path_of_string "/run"
  ∧ Sample.resolve (joinpath (Path_of_string "/run") ("step_" +:+ str_int (2 + 1)))
    = joinpath (Path_of_string "/run") ("step_" +:+ str_int (2 + 1))
  ∧ Sample.resolve (joinpath (Path_of_string "/run") ("step_" +:+ str_int 1))
    = joinpath (Path_of_string "/run") ("step_" +:+ str_int 1)
  ∧ Sample.previous_path (2 + 1)
      (joinpath (Path_of_string "/run") ("step_" +:+ str_int (2 + 1)))
    = joinpath (Path_of_string "/run") ("step_" +:+ str_int 2)
  ∧ Sample.previous_path 1 (joinpath (Path_of_string "/run") ("step_" +:+ str_int 1))
    = joinpath (Path_of_string "/run") "topology".
Proof.
  split; [reflexivity|]. split; [lia|]. split; [reflexivity|].
  split; [reflexivity|]. split; [reflexivity|].
  apply (previous_path_is_previous_step "step_" "topology" Sample.resolve
           Sample.absolute (Path_of_string "/run") 2); (reflexivity || lia).
Defined.

Lemma previous_path_injective_witness :
  every_char not_slash "step_" = true
  ∧ 1 < 3 ∧ 1 < 3
  ∧ Sample.previous_path 3 (Sample.step 3) = Sample.previous_path 3 (Sample.step 3)
  ∧ 3 = 3.
Proof.
  split; [reflexivity|]. split; [lia|]. split; [lia|]. split; [reflexivity|].
  apply (previous_path_injective "step_" "topology" Sample.resolve Sample.absolute
           3 3 (Sample.step 3)); (reflexivity || lia).
Defined.

(** ** haddock/modules/__init__.py: [working_directory] *)

Module WorkingDirectory.

(** The process: its working directory and the file system. *)
Record Process : Type := mkProcess { cwd : Path; disk : FS }.

Definition P (A : Type) : Type := Process → result A * Process.

#[global] Instance P_ret : MRet P := λ A a s, (Ok a, s).
#[global] Instance P_bind : MBind P := λ A B k m s,
  match m s with
  | (Ok a, s') => k a s'
  | (Raise e, s') => (Raise e, s')
  end.

(** [Path.cwd()]. *)
Definition get_cwd : P Path := λ s, (Ok (cwd s), s).

(** The components of a path followed from the directory [cur], as the
    system follows them: [..] is the parent of the directory reached, and a
    name has to be a directory that is there. *)
Fixpoint walk (disk : FS) (cur components : list string) (filename : string)
    : result (list string) :=
  match components with
  | [] => Ok cur
  | c :: rest =>
      if decide (c = "..") then walk disk (removelast cur) rest filename
      else
        match disk (mkPath true (cur ++ [c])) with
        | Some Dir => walk disk (cur ++ [c]) rest filename
        | Some (File _) => Raise (NotADirectoryError filename)
        | None => Raise (FileNotFoundError filename)
        end
  end.

(** [os.chdir(path)]: a relative path starts from the working directory.
    The exception bears [os.fspath(path)]. *)
Definition chdir (path : Path) : P unit := λ s,
  let start := if anchored path then [] else parts (cwd s) in
  match walk (disk s) start (parts path) (str path) with
  | Ok target => (Ok (), mkProcess (mkPath true target) (disk s))
  | Raise e => (Raise e, s)
  end.

(** [try: body finally: cleanup]: the cleanup runs however the body ends,
    and an exception of the cleanup is the one that leaves. *)
Definition try_finally {A} (body : P A) (cleanup : P unit) : P A := λ s,
  let '(r, s1) := body s in
  match cleanup s1 with
  | (Ok _, s2) => (r, s2)
  | (Raise e, s2) => (Raise e, s2)
  end.

(** [with working_directory(path): body]. The generator runs up to its
    [yield], the body runs there, and the [finally] clause runs when the
    body returns or raises. *)
Definition working_directory {A} (path : Path) (body : P A) : P A :=
  prev_cwd ← get_cwd;
  _ ← chdir path;
  try_finally body (chdir prev_cwd).

(** Every directory from the root down to [p] is a directory of the
    disk. *)
Definition directory (disk : FS) (p : Path) : Prop :=
  Forall (λ n, disk (mkPath true (take n (parts p))) = Some Dir)
    (seq 1 (length (parts p))).

(** Where the walk arrives is where folding [..] arrives. *)
Lemma walk_fold disk cur components filename target :
  walk disk cur components filename = Ok target →
  target = foldl fold_dotdot cur components.
Proof.
  revert cur. induction components as [|c rest IH]; intros cur; simpl.
  - by intros [= <-].
  - unfold fold_dotdot at 2. case_decide; [apply IH|].
    destruct (disk (mkPath true (cur ++ [c]))) as [[content|]|]; try done. apply IH.
Qed.

Lemma walk_directories disk cur components filename :
  ".." ∉ components →
  (∀ n, (0 < n ≤ length components)%nat →
        disk (mkPath true (cur ++ take n components)) = Some Dir) →
  walk disk cur components filename = Ok (cur ++ components).
Proof.
  revert cur. induction components as [|c rest IH]; intros cur Hdots Hdirs; simpl.
  - by rewrite app_nil_r.
  - apply not_elem_of_cons in Hdots as [Hc Hdots]. rewrite decide_False by done.
    pose proof (Hdirs 1%nat) as Hfirst. simpl in Hfirst. rewrite take_0 in Hfirst.
    rewrite Hfirst by lia.
    rewrite IH; [by rewrite <- app_assoc|done|].
    intros n Hn. rewrite <- app_assoc. apply (Hdirs (S n)). simpl. lia.
Qed.

Lemma chdir_raise path s e s0 : chdir path s = (Raise e, s0) → s0 = s.
Proof.
  unfold chdir. destruct (walk _ _ _ _); [done|]. by intros [= _ <-].
Qed.

(** Where [chdir] goes when it succeeds, from a working directory that is
    absolute and has no [..], as [os.getcwd()] gives it. *)
Lemma chdir_enter path s s0 :
  anchored (cwd s) = true → ".." ∉ parts (cwd s) →
  chdir path s = (Ok (), s0) →
  cwd s0 = resolve_in (cwd s) path ∧ disk s0 = disk s.
Proof.
  intros Hanchored Hdots. unfold chdir.
  destruct (walk _ _ _ _) as [target|e] eqn:Hwalk; [|done].
  intros [= <-]. simpl. split; [|done].
  apply walk_fold in Hwalk. subst target.
  unfold resolve_in, absolute_in. destruct (anchored path); [done|].
  simpl. by rewrite foldl_app, (foldl_fold_dotdot [] (parts (cwd s))).
Qed.

(** Going back to an absolute directory whose chain is on the disk. *)
Lemma chdir_back (p : Path) s :
  anchored p = true → ".." ∉ parts p → directory (disk s) p →
  chdir p s = (Ok (), mkProcess p (disk s)).
Proof.
  intros Hanchored Hdots Hdir. unfold chdir. rewrite Hanchored.
  rewrite walk_directories; [by destruct p; simpl in *; subst|done|].
  intros n Hn. unfold directory in Hdir. rewrite Forall_forall in Hdir.
  apply Hdir. apply elem_of_seq. lia.
Qed.


(** A process in [/run] with the directory of a step and a file of notes,
    and a body that goes to the root and raises. *)
Definition sample_disk : FS := λ p,
  if decide (p = Path_of_string "/run") then Some Dir
  else if decide (p = Path_of_string "/run/step_1") then Some Dir
  else if decide (p = Path_of_string "/run/notes.txt") then Some (File "")
  else None.
Definition sample_process : Process := mkProcess (Path_of_string "/run") sample_disk.
Definition leave : P unit := λ s, (Raise SystemExit, s).
Definition sample_body : P unit := _ ← chdir (Path_of_string "/"); leave.

(** A body that removes the run directory and returns. *)
Definition remove_all : P unit := λ s, (Ok (), mkProcess (cwd s) (λ _, None)).

Example working_directory_sample :
  working_directory (Path_of_string "step_1") sample_body sample_process
  = (Raise SystemExit, sample_process)
  ∧ working_directory (Path_of_string "step_9") sample_body sample_process
    = (Raise (FileNotFoundError "step_9"), sample_process)
  ∧ working_directory (Path_of_string "nope/../step_1") sample_body sample_process
    = (Raise (FileNotFoundError "nope/../step_1"), sample_process)
  ∧ working_directory (Path_of_string "notes.txt/../step_1") sample_body sample_process
    = (Raise (NotADirectoryError "notes.txt/../step_1"), sample_process)
  ∧ working_directory (Path_of_string "step_1/../step_1") sample_body sample_process
    = (Raise SystemExit, sample_process)
  ∧ working_directory (Path_of_string "step_1") remove_all sample_process
    = (Raise (FileNotFoundError "/run"),
       mkProcess (Path_of_string "/run/step_1") (λ _, None)).
Proof. repeat split; reflexivity. Qed.


End WorkingDirectory.

(** ** [previous_path] in a process *)

Section Addressing.

Variables MODULE_PATH_NAME TOPOLOGY_PATH : string.
Variables ModuleIO Defaults : Type.

(** [self.previous_path()] called in a process. [Path.resolve] and
    [Path.absolute] read the working directory of the process at the time
    of the call; on a disk without symbolic links, which is all [node] has,
    they read nothing else. *)
Definition previous_path_at (s : WorkingDirectory.Process)
    (self : BaseHaddockModule ModuleIO Defaults) : Path :=
  previous_path_of MODULE_PATH_NAME TOPOLOGY_PATH
    (resolve_in (WorkingDirectory.cwd s)) (absolute_in (WorkingDirectory.cwd s))
    ModuleIO Defaults self.

(** The resolution of an absolute path does not look at the working
    directory. *)
Lemma resolve_in_anchored (cwd cwd' p : Path) :
  anchored p = true → resolve_in cwd p = resolve_in cwd' p.
Proof. intros Hp. unfold resolve_in, absolute_in. by rewrite Hp. Qed.


End Addressing.

(** A step of ordinal 2 made with the relative path [run/step_2], in a
    process that starts in [/home/user] and enters the directory of the
    step. *)
Module SampleProcess.

Definition disk : FS := λ p,
  if decide (p ∈ Path_of_string
                   <$> ["/home"; "/home/user"; "/home/user/run";
                        "/home/user/run/step_1"; "/home/user/run/step_2"])
  then Some Dir else None.

Definition outside : WorkingDirectory.Process :=
  WorkingDirectory.mkProcess (Path_of_string "/home/user") disk.
Definition inside : WorkingDirectory.Process :=
  WorkingDirectory.mkProcess (Path_of_string "/home/user/run/step_2") disk.

Definition self : BaseHaddockModule (list string) string :=
  mkBaseHaddockModule _ _ 2 (Path_of_string "run/step_2") [] None None None "" "".

Definition previous_path_at
    : WorkingDirectory.Process → BaseHaddockModule (list string) string → Path :=
  previous_path_at "step_" "topology" (list string) string.

End SampleProcess.



(** ** Lists and control as Python has them *)

(** [l[i]]: a negative index counts from the end. *)
Definition py_index {A} (l : list A) (i : Z) : result A :=
  let n := Z.of_nat (length l) in
  let j := if decide (i < 0) then i + n else i in
  match (if decide (0 ≤ j) then l !! Z.to_nat j else None) with
  | Some x => Ok x
  | None => Raise IndexError
  end.

(** [l[a:b]]: bounds are clamped to the list. *)
Definition clamp (n i : Z) : Z :=
  if decide (i < 0) then Z.max (i + n) 0 else Z.min i n.
Definition py_slice {A} (l : list A) (a b : Z) : list A :=
  let n := Z.of_nat (length l) in
  take (Z.to_nat (clamp n b - clamp n a)) (drop (Z.to_nat (clamp n a)) l).

(** [for x in l: s = body(s, x)], stopping at the first exception. *)
Fixpoint for_each {A S} (l : list A) (s : S) (body : S → A → M S) : M S :=
  match l with
  | [] => mret s
  | x :: l' => s' ← body s x; for_each l' s' body
  end.

(** [SystemExit] is no [Exception]: an [except Exception] clause lets it
    through. *)
Definition is_Exception (e : exn) : bool :=
  match e with SystemExit => false | _ => true end.

(** [try: body except Exception as e: handler(e)]. *)
Definition try_except {A} (body : M A) (handler : exn → M A) : M A :=
  λ w, match body w with
       | (Raise e, w') => if is_Exception e then handler e w' else (Raise e, w')
       | done => done
       end.

(** ** alascan: [HaddockModule._run] *)

Module HaddockModule.

Record Params : Type := mkParams {
  ncores : option Z;
  plot : bool;
  output_flag : bool;
  scan_residue : string;
}.

Record Scan : Type := mkScan {
  model_list : list Model;
  output_name : string;
  core : Z;
  scan_path : Path;
  scan_params : Params;
}.

(** A [ScanJob] is built from the output file, the parameters and the scan;
    [_run] reads back the first as [job.output]. *)
Record ScanJob : Type := mkScanJob {
  output : Path;
  job_params : Params;
  scan_obj : Scan;
}.

Section Run.

(** [haddock.libs.libontology.ModuleIO] and its
    [retrieve_models(individualize=True)]. *)
Variable ModuleIO : Type.
Variable retrieve_models : ModuleIO → result (list Model).

(** [haddock.libs.libutil.parse_ncores(n, njobs)]. *)
Variable parse_ncores : option Z → Z → result Z.

(** [Scheduler(jobs, ncores).run()]: whatever it does, it does to the file
    system, and it returns or raises. *)
Variable Scheduler_run : list ScanJob → Z → Ext unit.

(** [alascan_cluster_analysis(models)]: the cluster identifiers in the order
    iteration visits them, each with its text in an f-string. *)
Variable Cluster : Type.
Variable cluster_str : Cluster → string.
Variable alascan_cluster_analysis : list Model → Ext (list Cluster).

(** [pandas.read_csv], plotly's figure written with [write_html],
    [shutil.copy], [add_delta_to_bfactor] and [Path.resolve]. *)
Variable DataFrame : Type.
Variable read_csv : string → Ext DataFrame.
Variable write_html : DataFrame → string → string → Ext unit.
Variable shutil_copy : Path → Path → Ext unit.
Variable add_delta_to_bfactor : string → DataFrame → Ext unit.
Variable resolve : Path → Path.

Record HaddockModule : Type := mkHaddockModule {
  previous_io : ModuleIO;
  params : Params;
  path : Path;
}.

(** Modelled from the spec: [export_output_models] belongs to the base class
    of the alascan module, which is not among the sources; the Module
    Runtime "writes its own output manifest", and the models it is given are
    recorded as that manifest. *)
Definition export_output_models (output_models : list Model) : M unit :=
  λ w, (Ok (), mkWorld (fs w) (log w) (Some output_models)).

Definition make_alascan_plot (df : DataFrame) (clt_id : Cluster) (scan_res : string)
    : M unit :=
  let plot_name := "scan_clt_" +:+ cluster_str clt_id in
  _ ← emit INFO ("Generating " +:+ scan_res +:+ " scanning plot " +:+ plot_name);
  let html_output_filename := plot_name +:+ ".html" in
  call (write_html df (scan_res +:+ " scanning cluster " +:+ cluster_str clt_id)
          html_output_filename).

(** The body of the loop that builds the jobs, one per core. *)
Definition make_job (self : HaddockModule) (models : list Model) (index_list : list Z)
    (alascan_jobs : list ScanJob) (core : Z) : M (list ScanJob) :=
  let output_name := "alascan_" +:+ str_int core +:+ ".scan" in
  start ← of_result (py_index index_list core);
  stop ← of_result (py_index index_list (core + 1));
  let contact_obj :=
    mkScan (py_slice models start stop) output_name core (Path_of_string ".")
      (params self) in
  let job_f := Path_of_string output_name in
  let job := mkScanJob job_f (params self) contact_obj in
  mret (alascan_jobs ++ [job]).

(** Lines 138 to 173: retrieve the models, distribute them, build the jobs
    and run the scheduler. Returns the models and the jobs. *)
Definition schedule (self : HaddockModule) : M (list Model * list ScanJob) :=
  models ← try_except (of_result (retrieve_models (previous_io self)))
              (λ e, finish_with_error (Exception e));
  let nmodels := Z.of_nat (length models) in
  ncores ← of_result (parse_ncores (ncores (params self)) nmodels);
  _ ← emit INFO ("Running on " +:+ str_int ncores +:+ " cores");
  index_list ← of_result (Alascan.get_index_list nmodels ncores);
  alascan_jobs ← for_each (Alascan.range ncores) [] (make_job self models index_list);
  _ ← call (Scheduler_run alascan_jobs ncores);
  mret (models, alascan_jobs).

(** The body of the loop that looks for the output of each job; the state
    is the pair of [alascan_file_l] and [not_found]. *)
Definition check_job (found : list string * list string) (job : ScanJob)
    : M (list string * list string) :=
  fs ← get_fs;
  if negb (exists_ fs (output job)) then
    let not_found := found.2 ++ [name (output job)] in
    let wrn := "Alascan not completed for " +:+ name (output job) in
    _ ← emit WARNING wrn;
    mret (found.1, not_found)
  else mret (found.1 ++ [str (output job)], found.2).

Definition plot_cluster (self : HaddockModule) (_ : unit) (clt_id : Cluster) : M unit :=
  let scan_clt_filename := "scan_clt_" +:+ cluster_str clt_id +:+ ".csv" in
  df_scan_clt ← call (read_csv scan_clt_filename);
  try_except (make_alascan_plot df_scan_clt clt_id (scan_residue (params self)))
    (λ e, emit WARNING
            ("Could not create interactive plot. The following error"
             +:+ " occurred " +:+ exn_str e)).

Definition export_model (self : HaddockModule) (models_to_export : list Model)
    (model : Model) : M (list Model) :=
  let name := file_name model +:+ "_alascan.pdb" in
  let name_path := Path_of_string name in
  _ ← call (shutil_copy (rel_path model) name_path);
  let alascan_fname := "scan_" +:+ file_name model +:+ ".csv" in
  df_scan ← call (read_csv alascan_fname);
  _ ← call (add_delta_to_bfactor name df_scan);
  let model := mkModel name (file_name model) name
                 (join_path (joinpath (Path_of_string "..") (Pathlib.name (path self)))
                    name_path)
                 (str (resolve (path self))) in
  mret (models_to_export ++ [model]).

(** Lines 174 to 234: check the outputs, then analyse, plot and export. *)
Definition collect (self : HaddockModule) (models : list Model)
    (alascan_jobs : list ScanJob) : M unit :=
  found ← for_each alascan_jobs ([], []) check_job;
  let not_found := found.2 in
  _ ← (if bool_decide (not_found = []) then mret ()
       else finish_with_error
              (Text ("Several alascan files were not generated:"
                     +:+ " " +:+ repr_list not_found)));
  clt_alascan ← call (alascan_cluster_analysis models);
  _ ← (if plot (params self) then for_each clt_alascan () (plot_cluster self)
       else mret ());
  output_models ←
    (if output_flag (params self) then for_each models [] (export_model self)
     else mret models);
  export_output_models output_models.

Definition _run (self : HaddockModule) : M unit :=
  '(models, alascan_jobs) ← schedule self;
  collect self models alascan_jobs.

(** The jobs whose output is not on the file system, in the order of the
    jobs. *)
Definition missing (fs : FS) (jobs : list ScanJob) : list ScanJob :=
  filter (λ job, exists_ fs (output job) = false) jobs.
Definition present (fs : FS) (jobs : list ScanJob) : list ScanJob :=
  filter (λ job, exists_ fs (output job) = true) jobs.

Definition warning_for (job : ScanJob) : level * string :=
  (WARNING, "Alascan not completed for " +:+ name (output job)).

(** A computation that leaves the exported manifest alone. *)
Definition keeps_manifest {A} (m : M A) : Prop :=
  ∀ w r w', m w = (r, w') → exported w' = exported w.

Lemma keeps_manifest_bind {A B} (m : M A) (k : A → M B) :
  keeps_manifest m → (∀ a, keeps_manifest (k a)) → keeps_manifest (m ≫= k).
Proof.
  intros Hm Hk w r w'. unfold mbind, M_bind.
  destruct (m w) as [[a|e] w1] eqn:Hmw; intros Hrun.
  - rewrite (Hk a _ _ _ Hrun). eauto.
  - injection Hrun as <- <-. eauto.
Qed.

Lemma keeps_manifest_ret {A} (a : A) : keeps_manifest (mret a).
Proof. by intros w r w' [= <- <-]. Qed.

Lemma keeps_manifest_of_result {A} (r : result A) : keeps_manifest (of_result r).
Proof. by intros w r' w' [= <- <-]. Qed.

Lemma keeps_manifest_emit l text : keeps_manifest (emit l text).
Proof. by intros w r w' [= <- <-]. Qed.

Lemma keeps_manifest_call {A} (f : Ext A) : keeps_manifest (call f).
Proof. intros w r w'. unfold call. destruct (f (fs w)). by intros [= <- <-]. Qed.

Lemma keeps_manifest_finish {A} (msg : message) :
  keeps_manifest (finish_with_error (A := A) msg).
Proof. by intros w r w' [= <- <-]. Qed.

Lemma keeps_manifest_try {A} (body : M A) (handler : exn → M A) :
  keeps_manifest body → (∀ e, keeps_manifest (handler e)) →
  keeps_manifest (try_except body handler).
Proof.
  intros Hbody Hhandler w r w'. unfold try_except.
  destruct (body w) as [[a|e] w1] eqn:Hw.
  - intros [= <- <-]. eauto.
  - destruct (is_Exception e).
    + intros Hrun. rewrite (Hhandler _ _ _ _ Hrun). eauto.
    + intros [= <- <-]. eauto.
Qed.

Lemma keeps_manifest_for_each {A S} (l : list A) (s : S) (body : S → A → M S) :
  (∀ s x, keeps_manifest (body s x)) → keeps_manifest (for_each l s body).
Proof.
  intros Hbody. revert s. induction l as [|x l IH]; intros s; simpl.
  - apply keeps_manifest_ret.
  - apply keeps_manifest_bind; auto.
Qed.

Lemma keeps_manifest_schedule (self : HaddockModule) : keeps_manifest (schedule self).
Proof.
  unfold schedule.
  repeat first
    [ apply keeps_manifest_bind; [|intros ?]
    | apply keeps_manifest_try; [|intros ?]
    | apply keeps_manifest_for_each; intros ??; unfold make_job
    | apply keeps_manifest_ret | apply keeps_manifest_of_result
    | apply keeps_manifest_emit | apply keeps_manifest_call
    | apply keeps_manifest_finish ].
Qed.

(** The loop over the jobs: every missing output is warned about and its
    name recorded, every present one is appended to the files, and the file
    system is only read. *)
Lemma check_jobs_spec (jobs : list ScanJob) (found : list string * list string)
    (w : World) :
  for_each jobs found check_job w
  = (Ok (found.1 ++ (str ∘ output <$> present (fs w) jobs),
         found.2 ++ (name ∘ output <$> missing (fs w) jobs)),
     mkWorld (fs w) (log w ++ (warning_for <$> missing (fs w) jobs)) (exported w)).
Proof.
  revert found w. induction jobs as [|job jobs IH]; intros [files not_found] w.
  - destruct w. simpl. by rewrite !app_nil_r.
  - simpl. unfold mbind at 1. unfold M_bind at 1.
    unfold check_job at 1. unfold mbind at 1. unfold M_bind at 1.
    unfold missing, present. rewrite !filter_cons. unfold get_fs.
    destruct (exists_ (fs w) (output job)) eqn:Hexists; simpl.
    + rewrite IH. simpl. unfold present, missing.
      by rewrite <- app_assoc.
    + rewrite IH. simpl. unfold present, missing.
      by rewrite <- !app_assoc.
Qed.

Lemma finish_with_error_text {A} (text : string) (w : World) :
  text ≠ "" →
  finish_with_error (A := A) (Text text) w
  = (Raise SystemExit, mkWorld (fs w) (log w ++ [(ERROR, text)]) (exported w)).
Proof.
  intros Htext. unfold finish_with_error, truthy.
  rewrite bool_decide_eq_false_2 by done. reflexivity.
Qed.

(** C9. When the scheduler has returned and the output of at least one of
    the jobs is not on the file system, [_run] leaves through [SystemExit]:
    it has warned about each missing output, its last log record is the
    error that lists the names of the missing outputs, those and no others,
    in the order of the jobs, and the manifest is as it was before the run
    ([export_output_models] is not reached). *)
Theorem run_missing_output_aborts (self : HaddockModule) (w w1 : World)
    (models : list Model) (alascan_jobs : list ScanJob) :
  schedule self w = (Ok (models, alascan_jobs), w1) →
  (∃ job, job ∈ alascan_jobs ∧ exists_ (fs w1) (output job) = false) →
  let not_found := name ∘ output <$> missing (fs w1) alascan_jobs in
  _run self w
  = (Raise SystemExit,
     mkWorld (fs w1)
       (log w1 ++ (warning_for <$> missing (fs w1) alascan_jobs)
          ++ [(ERROR, "Several alascan files were not generated: "
                      +:+ repr_list not_found)])
       (exported w))
  ∧ (∀ n, n ∈ not_found ↔
          ∃ job, job ∈ alascan_jobs ∧ exists_ (fs w1) (output job) = false
                 ∧ n = name (output job)).
Proof.
  intros Hschedule (job & Hjob & Hmissing) not_found. split.
  - unfold _run. unfold mbind at 1. unfold M_bind at 1. rewrite Hschedule.
    unfold collect. unfold mbind at 1. unfold M_bind at 1.
    rewrite check_jobs_spec. cbn [fst snd app].
    fold not_found.
    assert (Hne : not_found ≠ []).
    { unfold not_found. intros Hnil. apply fmap_nil_inv in Hnil.
      assert (Hin : job ∈ missing (fs w1) alascan_jobs)
        by (apply list_elem_of_filter; done).
      rewrite Hnil in Hin. by apply not_elem_of_nil in Hin. }
    unfold mbind at 1. unfold M_bind at 1.
    rewrite bool_decide_eq_false_2 by done.
    rewrite finish_with_error_text by done. cbn [fs log exported].
    rewrite (keeps_manifest_schedule self _ _ _ Hschedule).
    by rewrite <- app_assoc.
  - intros n. unfold not_found. rewrite list_elem_of_fmap. split.
    + intros (j & -> & Hj). apply list_elem_of_filter in Hj as [Hj1 Hj2].
      exists j. done.
    + intros (j & Hj1 & Hj2 & ->). exists j. split; [done|].
      by apply list_elem_of_filter.
Qed.

(** *** The jobs that [_run] builds *)

Lemma for_each_app {A S} (l1 l2 : list A) (s : S) (body : S → A → M S) (w : World) :
  for_each (l1 ++ l2) s body w
  = (for_each l1 s body ≫= λ s', for_each l2 s' body) w.
Proof.
  revert s w. induction l1 as [|x l1 IH]; intros s w; simpl; [done|].
  unfold mbind, M_bind. destruct (body s x w) as [[s'|e] w']; [|done].
  apply IH.
Qed.

(** A slice between two bounds inside the list. *)
Lemma py_slice_inside {A} (l : list A) (a b : Z) :
  0 ≤ a → a ≤ b → b ≤ Z.of_nat (length l) →
  py_slice l a b = take (Z.to_nat b - Z.to_nat a) (drop (Z.to_nat a) l).
Proof.
  intros Ha Hab Hb. unfold py_slice, clamp. cbv zeta.
  destruct (decide (b < 0)) as [|_]; [lia|].
  destruct (decide (a < 0)) as [|_]; [lia|].
  rewrite !Z.min_l by lia. f_equal. lia.
Qed.

(** The job of a core: its models are the slice between two consecutive
    boundaries. *)
Definition job_of (self : HaddockModule) (models : list Model) (spc rem core : Z)
    : ScanJob :=
  let output_name := "alascan_" +:+ str_int core +:+ ".scan" in
  mkScanJob (Path_of_string output_name) (params self)
    (mkScan
       (py_slice models (Alascan.boundary spc rem core)
          (Alascan.boundary spc rem (core + 1)))
       output_name core (Path_of_string ".") (params self)).

Lemma py_index_boundary spc rem c (i : Z) :
  0 ≤ i ≤ c →
  py_index (Alascan.boundary spc rem <$> seqZ 0 (c + 1)) i
  = Ok (Alascan.boundary spc rem i).
Proof.
  intros Hi. unfold py_index. cbv zeta.
  destruct (decide (i < 0)) as [|_]; [lia|].
  destruct (decide (0 ≤ i)) as [_|]; [|lia].
  rewrite (Alascan.boundary_lookup spc rem c (Z.to_nat i)) by lia.
  by rewrite Z2Nat.id by lia.
Qed.

Lemma make_jobs_loop (self : HaddockModule) (models : list Model) spc rem c
    (k : nat) (w : World) :
  Z.of_nat k ≤ c →
  for_each (seqZ 0 (Z.of_nat k)) []
    (make_job self models (Alascan.boundary spc rem <$> seqZ 0 (c + 1))) w
  = (Ok (job_of self models spc rem <$> seqZ 0 (Z.of_nat k)), w).
Proof.
  induction k as [|k IH]; intros Hk; [done|].
  rewrite seqZ_S, for_each_app. unfold mbind at 1. unfold M_bind at 1.
  rewrite IH by lia. simpl. unfold make_job.
  unfold mbind, M_bind, of_result, mret, M_ret.
  rewrite !py_index_boundary by lia. by rewrite fmap_app.
Qed.

Lemma slices_concat (models : list Model) spc rem (k : nat) :
  0 ≤ spc → 0 ≤ rem →
  Alascan.boundary spc rem (Z.of_nat k) ≤ Z.of_nat (length models) →
  concat ((λ core, py_slice models (Alascan.boundary spc rem core)
                     (Alascan.boundary spc rem (core + 1)))
            <$> seqZ 0 (Z.of_nat k))
  = take (Z.to_nat (Alascan.boundary spc rem (Z.of_nat k))) models.
Proof.
  intros Hspc Hrem. induction k as [|k IH]; intros Hk.
  - unfold Alascan.boundary. simpl. by rewrite Z.min_l by lia.
  - assert (Hstep : Alascan.boundary spc rem (Z.of_nat k)
                    ≤ Alascan.boundary spc rem (Z.of_nat (S k)))
      by (apply Alascan.boundary_mono; lia).
    assert (Hpos : Alascan.boundary spc rem 0
                   ≤ Alascan.boundary spc rem (Z.of_nat k))
      by (apply Alascan.boundary_mono; lia).
    assert (Hzero : Alascan.boundary spc rem 0 = 0) by (unfold Alascan.boundary; lia).
    rewrite seqZ_S, fmap_app, concat_app, IH by lia. simpl.
    rewrite app_nil_r, Z.add_0_l.
    replace (Z.of_nat k + 1) with (Z.of_nat (S k)) by lia.
    rewrite py_slice_inside by lia. rewrite take_take_drop. f_equal. lia.
Qed.

(** X2. For at least one core, the loop of [_run] builds one job per core
    and raises nothing: the job of core [i] writes [alascan_i.scan] and
    bears the parameters of the module, and the model lists of the jobs,
    one after the other, are the models: every model goes to one job and
    the order is kept. *)
Theorem alascan_jobs_partition (self : HaddockModule) (models : list Model) (c : Z)
    (w : World) :
  1 ≤ c →
  ∃ index_list jobs,
    Alascan.get_index_list (Z.of_nat (length models)) c = Ok index_list
    ∧ for_each (Alascan.range c) [] (make_job self models index_list) w = (Ok jobs, w)
    ∧ length jobs = Z.to_nat c
    ∧ (∀ (i : nat) job,
          jobs !! i = Some job →
          output job = Path_of_string ("alascan_" +:+ str_int (Z.of_nat i) +:+ ".scan")
          ∧ core (scan_obj job) = Z.of_nat i
          ∧ job_params job = params self)
    ∧ concat (model_list ∘ scan_obj <$> jobs) = models.
Proof.
  intros Hc. set (n := Z.of_nat (length models)).
  set (spc := n `div` c). set (rem := n `mod` c).
  assert (Hspc : 0 ≤ spc) by (apply Z.div_pos; lia).
  assert (Hrem : 0 ≤ rem < c) by (apply Z.mod_pos_bound; lia).
  assert (Hlast : Alascan.boundary spc rem c = n).
  { unfold Alascan.boundary. rewrite Z.min_r by lia.
    pose proof (Z.div_mod n c) as Hdm. fold spc rem in Hdm. lia. }
  exists (Alascan.boundary spc rem <$> seqZ 0 (c + 1)),
    (job_of self models spc rem <$> seqZ 0 c).
  split; [apply Alascan.get_index_list_closed; lia|]. split; [|split; [|split]].
  - unfold Alascan.range. rewrite <- (Z2Nat.id c) at 1 3 by lia.
    apply make_jobs_loop. lia.
  - by rewrite length_fmap, length_seqZ.
  - intros i job Hjob. apply list_lookup_fmap_Some in Hjob as (core & -> & Hcore).
    apply lookup_seqZ in Hcore as [-> _]. by rewrite Z.add_0_l.
  - rewrite <- list_fmap_compose. rewrite <- (Z2Nat.id c) by lia.
    unfold compose. simpl. rewrite slices_concat; [|lia..|].
    + rewrite Z2Nat.id by lia. rewrite Hlast. apply take_ge. lia.
    + rewrite Z2Nat.id by lia. lia.
Qed.

(** *** What [_run] does to the manifest *)

(** A computation that leaves the exported manifest alone when it raises. *)
Definition raise_keeps_manifest {A} (m : M A) : Prop :=
  ∀ w e w', m w = (Raise e, w') → exported w' = exported w.

Lemma raise_keeps_bind {A B} (m : M A) (k : A → M B) :
  keeps_manifest m → (∀ a, raise_keeps_manifest (k a)) →
  raise_keeps_manifest (m ≫= k).
Proof.
  intros Hm Hk w e w'. unfold mbind, M_bind.
  destruct (m w) as [[a|e0] w1] eqn:Hmw; intros Hrun.
  - rewrite (Hk a _ _ _ Hrun). eauto.
  - injection Hrun as <- <-. eauto.
Qed.

Lemma raise_keeps_export (output_models : list Model) :
  raise_keeps_manifest (export_output_models output_models).
Proof. by intros w e w'. Qed.

Lemma keeps_manifest_if {A} (b : bool) (m1 m2 : M A) :
  keeps_manifest m1 → keeps_manifest m2 → keeps_manifest (if b then m1 else m2).
Proof. by destruct b. Qed.

Ltac keeps_manifest_steps :=
  repeat first
    [ apply keeps_manifest_bind; [|intros ?]
    | apply keeps_manifest_try; [|intros ?]
    | apply keeps_manifest_if
    | apply keeps_manifest_ret | apply keeps_manifest_of_result
    | apply keeps_manifest_emit | apply keeps_manifest_call
    | apply keeps_manifest_finish
    | match goal with |- keeps_manifest get_fs => by intros ??? [= <- <-] end ].

Lemma keeps_manifest_check_job found job : keeps_manifest (check_job found job).
Proof.
  unfold check_job. apply keeps_manifest_bind.
  - by intros ??? [= <- <-].
  - intros fs0. keeps_manifest_steps.
Qed.

Lemma keeps_manifest_plot_cluster self u clt : keeps_manifest (plot_cluster self u clt).
Proof. unfold plot_cluster, make_alascan_plot. keeps_manifest_steps. Qed.

Lemma keeps_manifest_export_model self acc model :
  keeps_manifest (export_model self acc model).
Proof. unfold export_model. keeps_manifest_steps. Qed.

(** X3. When [_run] raises, whatever the exception and wherever it comes
    from (the retrieval of the models, the number of cores, the scheduler,
    a missing output, the analysis, the files of the plots or of the
    export), the manifest is as it was before the run: a run that fails
    exports nothing. *)
Theorem run_raise_keeps_manifest (self : HaddockModule) (w w' : World) (e : exn) :
  _run self w = (Raise e, w') → exported w' = exported w.
Proof.
  revert w e w'. change (raise_keeps_manifest (_run self)).
  unfold _run. apply raise_keeps_bind; [apply keeps_manifest_schedule|].
  intros [models alascan_jobs]. unfold collect.
  apply raise_keeps_bind.
  { apply keeps_manifest_for_each. apply keeps_manifest_check_job. }
  intros found. apply raise_keeps_bind; [keeps_manifest_steps|]. intros _.
  apply raise_keeps_bind; [keeps_manifest_steps|]. intros clt_alascan.
  apply raise_keeps_bind.
  { apply keeps_manifest_if; [|keeps_manifest_steps].
    apply keeps_manifest_for_each. apply keeps_manifest_plot_cluster. }
  intros _. apply raise_keeps_bind.
  { apply keeps_manifest_if; [|keeps_manifest_steps].
    apply keeps_manifest_for_each. apply keeps_manifest_export_model. }
  intros output_models. apply raise_keeps_export.
Qed.

Lemma missing_none (fs : FS) (jobs : list ScanJob) :
  (∀ job, job ∈ jobs → exists_ fs (output job) = true) → missing fs jobs = [].
Proof.
  intros Hall. unfold missing. induction jobs as [|job jobs IH]; [done|].
  rewrite filter_cons_False.
  - apply IH. intros j Hj. apply Hall. by right.
  - rewrite (Hall job) by left. done.
Qed.

(** The check of the outputs when none is missing: nothing is logged and
    the run goes on. *)
Lemma collect_all_present (self : HaddockModule) (models : list Model)
    (jobs : list ScanJob) (w : World) :
  (∀ job, job ∈ jobs → exists_ (fs w) (output job) = true) →
  collect self models jobs w
  = (clt_alascan ← call (alascan_cluster_analysis models);
     _ ← (if plot (params self) then for_each clt_alascan () (plot_cluster self)
          else mret ());
     output_models ←
       (if output_flag (params self) then for_each models [] (export_model self)
        else mret models);
     export_output_models output_models) w.
Proof.
  intros Hall. unfold collect. unfold mbind at 1. unfold M_bind at 1.
  rewrite check_jobs_spec, (missing_none _ _ Hall). simpl.
  rewrite app_nil_r. by destruct w.
Qed.

(** X4. When the scheduler has returned, every job has its output, the
    cluster analysis returns and neither plots nor output models are asked
    for, [_run] returns: it logs nothing more, and the manifest it exports
    is the list of the models it retrieved, unchanged and in their order. *)
Theorem run_exports_models_unchanged (self : HaddockModule) (w w1 : World)
    (models : list Model) (alascan_jobs : list ScanJob) (clusters : list Cluster)
    (fs2 : FS) :
  schedule self w = (Ok (models, alascan_jobs), w1) →
  (∀ job, job ∈ alascan_jobs → exists_ (fs w1) (output job) = true) →
  alascan_cluster_analysis models (fs w1) = (Ok clusters, fs2) →
  plot (params self) = false →
  output_flag (params self) = false →
  _run self w = (Ok (), mkWorld fs2 (log w1) (Some models)).
Proof.
  intros Hschedule Hall Hclusters Hplot Houtput.
  unfold _run. unfold mbind at 1. unfold M_bind at 1. rewrite Hschedule.
  rewrite collect_all_present by done.
  unfold mbind, M_bind, call. rewrite Hclusters, Hplot, Houtput. reflexivity.
Qed.

(** X5. An exception raised while a plot is drawn is caught: a warning
    with its text follows the announcement of the plot and the loop goes
    on. The reading of the file of the cluster is outside the [try]: an
    exception there leaves [_run], with nothing logged. *)
Theorem plot_failure_is_not_fatal (self : HaddockModule) (clt_id : Cluster)
    (w : World) :
  let scan_res := scan_residue (params self) in
  let plot_name := "scan_clt_" +:+ cluster_str clt_id in
  let scan_clt_filename := "scan_clt_" +:+ cluster_str clt_id +:+ ".csv" in
  (∀ df fs1 e fs2,
      read_csv scan_clt_filename (fs w) = (Ok df, fs1) →
      write_html df (scan_res +:+ " scanning cluster " +:+ cluster_str clt_id)
        (plot_name +:+ ".html") fs1 = (Raise e, fs2) →
      is_Exception e = true →
      plot_cluster self () clt_id w
      = (Ok (),
         mkWorld fs2
           (log w ++ [(INFO, "Generating " +:+ scan_res +:+ " scanning plot " +:+ plot_name);
                      (WARNING,
                       "Could not create interactive plot. The following error"
                       +:+ " occurred " +:+ exn_str e)])
           (exported w)))
  ∧ (∀ e fs1,
        read_csv scan_clt_filename (fs w) = (Raise e, fs1) →
        plot_cluster self () clt_id w = (Raise e, mkWorld fs1 (log w) (exported w))).
Proof.
  intros scan_res plot_name scan_clt_filename. split.
  - intros df fs1 e fs2 Hread Hwrite Hexc.
    unfold plot_cluster, make_alascan_plot, try_except.
    unfold mbind, M_bind, call, emit. fold scan_clt_filename. rewrite Hread.
    cbn [fs log exported]. fold scan_res plot_name. rewrite Hwrite, Hexc.
    cbn [fs log exported]. by rewrite <- app_assoc.
  - intros e fs1 Hread. unfold plot_cluster.
    unfold mbind, M_bind, call. fold scan_clt_filename. by rewrite Hread.
Qed.

(** X6. When the retrieval of the models raises an exception, [_run] logs
    its text as an error and leaves through [SystemExit]: no job is built,
    the scheduler does not run and the file system is untouched. A
    [SystemExit] raised by the retrieval is no [Exception]: it goes through
    as it is, with nothing logged. *)
Theorem run_retrieve_failure (self : HaddockModule) (w : World) (e : exn) :
  retrieve_models (previous_io self) = Raise e →
  _run self w
  = if is_Exception e
    then (Raise SystemExit, mkWorld (fs w) (log w ++ [(ERROR, exn_str e)]) (exported w))
    else (Raise e, w).
Proof.
  intros Hretrieve. unfold _run, schedule.
  unfold mbind, M_bind, try_except, of_result. rewrite Hretrieve.
  by destruct (is_Exception e).
Qed.

(** X7. When the number of cores comes out as zero, [get_index_list]
    divides by it: [_run] leaves through [ZeroDivisionError] right after
    the record of the number of cores, before any job is built or
    scheduled. *)
Theorem run_zero_cores (self : HaddockModule) (w : World) (models : list Model) :
  retrieve_models (previous_io self) = Ok models →
  parse_ncores (ncores (params self)) (Z.of_nat (length models)) = Ok 0 →
  _run self w
  = (Raise ZeroDivisionError,
     mkWorld (fs w) (log w ++ [(INFO, "Running on 0 cores")]) (exported w)).
Proof.
  intros Hretrieve Hcores. unfold _run, schedule.
  unfold mbind, M_bind, try_except, of_result. rewrite Hretrieve, Hcores.
  reflexivity.
Qed.

(** The model that the export loop makes of a model. *)
Definition exported_model (self : HaddockModule) (model : Model) : Model :=
  let name := file_name model +:+ "_alascan.pdb" in
  mkModel name (file_name model) name
    (join_path (joinpath (Path_of_string "..") (Pathlib.name (path self)))
       (Path_of_string name))
    (str (resolve (path self))).

Lemma export_loop (self : HaddockModule) :
  (∀ src dst fs, ∃ fs', shutil_copy src dst fs = (Ok (), fs')) →
  (∀ file fs, ∃ df fs', read_csv file fs = (Ok df, fs')) →
  (∀ file df fs, ∃ fs', add_delta_to_bfactor file df fs = (Ok (), fs')) →
  ∀ models acc w,
    ∃ fs',
      for_each models acc (export_model self) w
      = (Ok (acc ++ (exported_model self <$> models)),
         mkWorld fs' (log w) (exported w)).
Proof.
  intros Hcopy Hread Hdelta models.
  induction models as [|model models IH]; intros acc w.
  - exists (fs w). simpl. rewrite app_nil_r. by destruct w.
  - simpl. unfold mbind at 1. unfold M_bind at 1.
    unfold export_model at 1. unfold mbind, M_bind, call.
    destruct (Hcopy (rel_path model) (Path_of_string (file_name model +:+ "_alascan.pdb"))
                (fs w)) as [fs1 ->]. simpl.
    destruct (Hread ("scan_" +:+ file_name model +:+ ".csv") fs1) as (df & fs2 & ->).
    simpl.
    destruct (Hdelta (file_name model +:+ "_alascan.pdb") df fs2) as [fs3 ->]. simpl.
    unfold mret, M_ret.
    destruct (IH (acc ++ [exported_model self model])
                (mkWorld fs3 (log w) (exported w))) as [fs' Hrest].
    exists fs'. fold (exported_model self model).
    fold (@mbind M _) in Hrest. rewrite Hrest. simpl.
    by rewrite <- app_assoc.
Qed.


End Run.
End HaddockModule.

(** ** A concrete alascan run *)

(** Five models on three cores, with a scheduler that leaves the outputs of
    the cores in [lost] unwritten and writes all the others. *)
Module SampleRun.
Import HaddockModule.

Definition model (n : Z) : Model :=
  let file := "model_" +:+ str_int n +:+ ".pdb" in
  mkModel file file file (join_path (Path_of_string "../1_rigidbody") (Path_of_string file))
    "/run/1_rigidbody".

Definition models : list Model := model <$> [1; 2; 3; 4; 5].

Definition retrieve_models (io : list Model) : result (list Model) := Ok io.

Definition parse_ncores (n : option Z) (njobs : Z) : result Z :=
  match n with
  | Some n => Ok (Z.min n njobs)
  | None => Ok njobs
  end.

Definition Scheduler_run (lost : list Z) (jobs : list ScanJob) (ncores : Z) : Ext unit :=
  λ fs,
    let written :=
      output <$> filter (λ job, core (scan_obj job) ∉ lost) jobs in
    (Ok (), λ p, if decide (p ∈ written) then Some (File "scan") else fs p).

Definition alascan_cluster_analysis (ms : list Model) : Ext (list Z) :=
  λ fs, (Ok [1], fs).
Definition read_csv (file : string) : Ext string :=
  λ fs, (open_read fs (Path_of_string file), fs).
Definition write_html (df title file : string) : Ext unit :=
  λ fs, (Ok (), λ p, if decide (p = Path_of_string file) then Some (File title) else fs p).
Definition shutil_copy (src dst : Path) : Ext unit :=
  λ fs, match open_read fs src with
        | Ok content => (Ok (), λ p, if decide (p = dst) then Some (File content) else fs p)
        | Raise e => (Raise e, fs)
        end.
Definition add_delta_to_bfactor (file df : string) : Ext unit := λ fs, (Ok (), fs).

Definition self : HaddockModule (list Model) :=
  mkHaddockModule _ models (mkParams (Some 3) false false "ALA")
    (Path_of_string "/run/2_alascan").

Definition empty_disk : FS := λ _, None.
Definition start : World := mkWorld empty_disk [] None.

Definition schedule (lost : list Z) : M (list Model * list ScanJob) :=
  HaddockModule.schedule (list Model) retrieve_models parse_ncores
    (Scheduler_run lost) self.

Definition run (lost : list Z) : M unit :=
  _run (list Model) retrieve_models parse_ncores (Scheduler_run lost)
    Z str_int alascan_cluster_analysis string read_csv write_html shutil_copy
    add_delta_to_bfactor (resolve_in (Path_of_string "/run/2_alascan")) self.

(** The jobs of the run and the state the scheduler leaves. *)
Definition jobs : list ScanJob :=
  match (schedule [1] start).1 with
  | Ok (_, jobs) => jobs
  | Raise _ => []
  end.
Definition scheduled : World := (schedule [1] start).2.

End SampleRun.

Example sample_jobs :
  (λ job, (str (HaddockModule.output job),
           file_name <$> HaddockModule.model_list (HaddockModule.scan_obj job)))
    <$> SampleRun.jobs
  = [("alascan_0.scan", ["model_1.pdb"; "model_2.pdb"]);
     ("alascan_1.scan", ["model_3.pdb"; "model_4.pdb"]);
     ("alascan_2.scan", ["model_5.pdb"])].
Proof. reflexivity. Qed.

Example sample_run_lost_output :
  let '(r, w) := SampleRun.run [1] SampleRun.start in
  r = Raise SystemExit
  ∧ log w = [(INFO, "Running on 3 cores");
             (WARNING, "Alascan not completed for alascan_1.scan");
             (ERROR, "Several alascan files were not generated: ['alascan_1.scan']")]
  ∧ exported w = None.
Proof. vm_compute. done. Qed.

Example sample_run_all_written :
  let '(r, w) := SampleRun.run [] SampleRun.start in
  r = Ok () ∧ log w = [(INFO, "Running on 3 cores")]
  ∧ exported w = Some SampleRun.models.
Proof. vm_compute. done. Qed.

Lemma run_missing_output_aborts_witness :
  SampleRun.schedule [1] SampleRun.start
  = (Ok (SampleRun.models, SampleRun.jobs), SampleRun.scheduled)
  ∧ (∃ job, job ∈ SampleRun.jobs
            ∧ exists_ (fs SampleRun.scheduled) (HaddockModule.output job) = false)
  ∧ (let not_found :=
       name ∘ HaddockModule.output
         <$> HaddockModule.missing (fs SampleRun.scheduled) SampleRun.jobs in
     SampleRun.run [1] SampleRun.start
     = (Raise SystemExit,
        mkWorld (fs SampleRun.scheduled)
          (log SampleRun.scheduled
             ++ (HaddockModule.warning_for
                   <$> HaddockModule.missing (fs SampleRun.scheduled) SampleRun.jobs)
             ++ [(ERROR, "Several alascan files were not generated: "
                         +:+ repr_list not_found)])
          (exported SampleRun.start))
     ∧ (∀ n, n ∈ not_found ↔
             ∃ job, job ∈ SampleRun.jobs
                    ∧ exists_ (fs SampleRun.scheduled) (HaddockModule.output job) = false
                    ∧ n = name (HaddockModule.output job))).
Proof.
  assert (Hschedule : SampleRun.schedule [1] SampleRun.start
                      = (Ok (SampleRun.models, SampleRun.jobs), SampleRun.scheduled))
    by reflexivity.
  assert (Hmissing : ∃ job, job ∈ SampleRun.jobs
            ∧ exists_ (fs SampleRun.scheduled) (HaddockModule.output job) = false).
  { eexists. split; [apply list_elem_of_lookup; exists 1%nat; reflexivity|].
    reflexivity. }
  split; [exact Hschedule|]. split; [exact Hmissing|].
  exact (HaddockModule.run_missing_output_aborts (list Model)
           SampleRun.retrieve_models SampleRun.parse_ncores
           (SampleRun.Scheduler_run [1]) Z str_int SampleRun.alascan_cluster_analysis
           string SampleRun.read_csv SampleRun.write_html SampleRun.shutil_copy
           SampleRun.add_delta_to_bfactor (resolve_in (Path_of_string "/run/2_alascan"))
           SampleRun.self SampleRun.start SampleRun.scheduled SampleRun.models
           SampleRun.jobs Hschedule Hmissing).
Defined.

(** ** More runs of the alascan module *)

(** Collaborators that always return, a retrieval that fails and a count
    of cores that comes out as zero. *)
Module SampleExport.
Import HaddockModule.

Definition shutil_copy (src dst : Path) : Ext unit :=
  λ fs, (Ok (), λ p, if decide (p = dst) then Some (File "copy") else fs p).
Definition read_csv (file : string) : Ext string := λ fs, (Ok file, fs).
Definition add_delta_to_bfactor (file df : string) : Ext unit := λ fs, (Ok (), fs).
Definition no_cores (n : option Z) (njobs : Z) : result Z := Ok 0.

Definition self : HaddockModule (list Model) :=
  mkHaddockModule _ SampleRun.models (mkParams (Some 3) false true "ALA")
    (Path_of_string "/run/2_alascan").

Definition resolve : Path → Path := resolve_in (Path_of_string "/run/2_alascan").

Definition schedule : M (list Model * list ScanJob) :=
  HaddockModule.schedule (list Model) SampleRun.retrieve_models SampleRun.parse_ncores
    (SampleRun.Scheduler_run []) self.

Definition run : M unit :=
  _run (list Model) SampleRun.retrieve_models SampleRun.parse_ncores
    (SampleRun.Scheduler_run []) Z str_int SampleRun.alascan_cluster_analysis string
    read_csv SampleRun.write_html shutil_copy add_delta_to_bfactor resolve self.

Definition jobs : list ScanJob :=
  match (schedule SampleRun.start).1 with
  | Ok (_, jobs) => jobs
  | Raise _ => []
  end.
Definition scheduled : World := (schedule SampleRun.start).2.

(** The run of [SampleRun] where every output is written. *)
Definition written : World := (SampleRun.schedule [] SampleRun.start).2.

End SampleExport.

Example sample_run_exports_scanned_models :
  (λ m, (file_name m, ori_name m, str (rel_path m), model_path m))
    <$> default [] (exported (SampleExport.run SampleRun.start).2)
  = [("model_1.pdb_alascan.pdb", "model_1.pdb", "../2_alascan/model_1.pdb_alascan.pdb", "/run/2_alascan");
     ("model_2.pdb_alascan.pdb", "model_2.pdb", "../2_alascan/model_2.pdb_alascan.pdb", "/run/2_alascan");
     ("model_3.pdb_alascan.pdb", "model_3.pdb", "../2_alascan/model_3.pdb_alascan.pdb", "/run/2_alascan");
     ("model_4.pdb_alascan.pdb", "model_4.pdb", "../2_alascan/model_4.pdb_alascan.pdb", "/run/2_alascan");
     ("model_5.pdb_alascan.pdb", "model_5.pdb", "../2_alascan/model_5.pdb_alascan.pdb", "/run/2_alascan")].
Proof. reflexivity. Qed.

Lemma alascan_jobs_partition_witness :
  ∃ index_list jobs,
    Alascan.get_index_list (Z.of_nat (length SampleRun.models)) 3 = Ok index_list
    ∧ for_each (Alascan.range 3) []
        (HaddockModule.make_job _ SampleRun.self SampleRun.models index_list)
        SampleRun.start = (Ok jobs, SampleRun.start)
    ∧ length jobs = Z.to_nat 3
    ∧ (∀ (i : nat) job,
          jobs !! i = Some job →
          HaddockModule.output job
          = Path_of_string ("alascan_" +:+ str_int (Z.of_nat i) +:+ ".scan")
          ∧ HaddockModule.core (HaddockModule.scan_obj job) = Z.of_nat i
          ∧ HaddockModule.job_params job = HaddockModule.params _ SampleRun.self)
    ∧ concat (HaddockModule.model_list ∘ HaddockModule.scan_obj <$> jobs) = SampleRun.models.
Proof.
  apply (HaddockModule.alascan_jobs_partition _ SampleRun.self SampleRun.models 3
           SampleRun.start).
  lia.
Defined.

Lemma run_raise_keeps_manifest_witness :
  SampleRun.run [1] SampleRun.start
  = (Raise SystemExit, (SampleRun.run [1] SampleRun.start).2)
  ∧ exported (SampleRun.run [1] SampleRun.start).2 = exported SampleRun.start.
Proof.
  assert (Hrun : SampleRun.run [1] SampleRun.start
                 = (Raise SystemExit, (SampleRun.run [1] SampleRun.start).2))
    by reflexivity.
  split; [exact Hrun|].
  exact (HaddockModule.run_raise_keeps_manifest _ _ _ _ _ _ _ _ _ _ _ _ _ _ _ _ _ Hrun).
Defined.

Lemma sample_outputs_written :
  ∀ job, job ∈ SampleRun.jobs →
         exists_ (fs SampleExport.written) (HaddockModule.output job) = true.
Proof.
  apply Forall_forall. repeat constructor.
Qed.

Lemma run_exports_models_unchanged_witness :
  SampleRun.schedule [] SampleRun.start
  = (Ok (SampleRun.models, SampleRun.jobs), SampleExport.written)
  ∧ (∀ job, job ∈ SampleRun.jobs →
            exists_ (fs SampleExport.written) (HaddockModule.output job) = true)
  ∧ SampleRun.alascan_cluster_analysis SampleRun.models (fs SampleExport.written)
    = (Ok [1], fs SampleExport.written)
  ∧ HaddockModule.plot (HaddockModule.params _ SampleRun.self) = false
  ∧ HaddockModule.output_flag (HaddockModule.params _ SampleRun.self) = false
  ∧ SampleRun.run [] SampleRun.start
    = (Ok (), mkWorld (fs SampleExport.written) (log SampleExport.written)
                (Some SampleRun.models)).
Proof.
  assert (Hschedule : SampleRun.schedule [] SampleRun.start
                      = (Ok (SampleRun.models, SampleRun.jobs), SampleExport.written))
    by reflexivity.
  assert (Hclusters :
            SampleRun.alascan_cluster_analysis SampleRun.models (fs SampleExport.written)
            = (Ok [1], fs SampleExport.written)) by reflexivity.
  repeat (split; [first [exact Hschedule | exact sample_outputs_written
                        | exact Hclusters | reflexivity]|]).
  exact (HaddockModule.run_exports_models_unchanged (list Model)
           SampleRun.retrieve_models SampleRun.parse_ncores (SampleRun.Scheduler_run [])
           Z str_int SampleRun.alascan_cluster_analysis string SampleRun.read_csv
           SampleRun.write_html SampleRun.shutil_copy SampleRun.add_delta_to_bfactor
           (resolve_in (Path_of_string "/run/2_alascan")) SampleRun.self SampleRun.start
           SampleExport.written SampleRun.models SampleRun.jobs [1]
           (fs SampleExport.written) Hschedule sample_outputs_written Hclusters
           eq_refl eq_refl).
Defined.

(** A run whose manifest file is not there, and one whose plot cannot be
    written because a directory has its name. *)
Module SamplePlot.

Definition no_manifest (io : list Model) : result (list Model) :=
  Raise (FileNotFoundError "/run/1_rigidbody/io.json").
Definition read_csv (file : string) : Ext string := λ fs, (Ok file, fs).
Definition write_html (df title file : string) : Ext unit :=
  λ fs, (Raise (IsADirectoryError file), fs).

Definition plot_cluster : unit → Z → M unit :=
  HaddockModule.plot_cluster (list Model) Z str_int string read_csv write_html
    SampleRun.self.

Definition run : M unit :=
  HaddockModule._run (list Model) no_manifest SampleRun.parse_ncores
    (SampleRun.Scheduler_run []) Z str_int SampleRun.alascan_cluster_analysis string
    SampleRun.read_csv SampleRun.write_html SampleRun.shutil_copy
    SampleRun.add_delta_to_bfactor SampleExport.resolve SampleRun.self.

End SamplePlot.

Lemma run_retrieve_failure_witness :
  SamplePlot.no_manifest (HaddockModule.previous_io _ SampleRun.self)
  = Raise (FileNotFoundError "/run/1_rigidbody/io.json")
  ∧ SamplePlot.run SampleRun.start
    = (Raise SystemExit,
       mkWorld (fs SampleRun.start)
         [(ERROR, "[Errno 2] No such file or directory: '/run/1_rigidbody/io.json'")]
         None).
Proof.
  split; [reflexivity|].
  exact (HaddockModule.run_retrieve_failure (list Model) SamplePlot.no_manifest
           SampleRun.parse_ncores (SampleRun.Scheduler_run []) Z str_int
           SampleRun.alascan_cluster_analysis string SampleRun.read_csv
           SampleRun.write_html SampleRun.shutil_copy SampleRun.add_delta_to_bfactor
           SampleExport.resolve SampleRun.self SampleRun.start
           (FileNotFoundError "/run/1_rigidbody/io.json") eq_refl).
Defined.

Lemma plot_failure_is_not_fatal_witness :
  SamplePlot.plot_cluster () 1 SampleRun.start
  = (Ok (),
     mkWorld (fs SampleRun.start)
       [(INFO, "Generating ALA scanning plot scan_clt_1");
        (WARNING,
         "Could not create interactive plot. The following error occurred "
         +:+ "[Errno 21] Is a directory: 'scan_clt_1.html'")]
       None).
Proof.
  pose proof (HaddockModule.plot_failure_is_not_fatal (list Model) Z str_int string
                SamplePlot.read_csv SamplePlot.write_html SampleRun.self 1
                SampleRun.start) as Hplot.
  cbv zeta in Hplot. destruct Hplot as [Hcaught _].
  exact (Hcaught "scan_clt_1.csv" (fs SampleRun.start)
           (IsADirectoryError "scan_clt_1.html") (fs SampleRun.start)
           eq_refl eq_refl eq_refl).
Defined.

Lemma run_zero_cores_witness :
  SampleRun.retrieve_models (HaddockModule.previous_io _ SampleRun.self)
  = Ok SampleRun.models
  ∧ SampleExport.no_cores
      (HaddockModule.ncores (HaddockModule.params _ SampleRun.self))
      (Z.of_nat (length SampleRun.models)) = Ok 0
  ∧ HaddockModule._run (list Model) SampleRun.retrieve_models SampleExport.no_cores
      (SampleRun.Scheduler_run []) Z str_int SampleRun.alascan_cluster_analysis string
      SampleRun.read_csv SampleRun.write_html SampleRun.shutil_copy
      SampleRun.add_delta_to_bfactor SampleExport.resolve SampleRun.self SampleRun.start
    = (Raise ZeroDivisionError,
       mkWorld (fs SampleRun.start)
         (log SampleRun.start ++ [(INFO, "Running on 0 cores")])
         (exported SampleRun.start)).
Proof.
  split; [reflexivity|]. split; [reflexivity|].
  apply (HaddockModule.run_zero_cores (list Model) SampleRun.retrieve_models
           SampleExport.no_cores (SampleRun.Scheduler_run []) Z str_int
           SampleRun.alascan_cluster_analysis string SampleRun.read_csv
           SampleRun.write_html SampleRun.shutil_copy SampleRun.add_delta_to_bfactor
           SampleExport.resolve SampleRun.self SampleRun.start SampleRun.models);
    reflexivity.
Defined.

Lemma sample_export_outputs_written :
  ∀ job, job ∈ SampleExport.jobs →
         exists_ (fs SampleExport.scheduled) (HaddockModule.output job) = true.
Proof.
  apply Forall_forall. repeat constructor.
Qed.


(** ** haddock.libs.libhpc, as the specification and its tests tell it *)

Module Libhpc.

(** [f"{n:02d}"]: at least two characters, a lone digit padded with a
    zero. *)
Definition pad2 (n : Z) : string :=
  if decide (0 ≤ n < 10) then "0" +:+ str_int n else str_int n.

(** Modelled from the spec: [to_torque_time] is defined in
    [haddock/libs/libhpc.py], which is not among the sources. It converts "a
    duration given in minutes into the queue's HH:MM:SS-style
    wall-time-limit token, correctly carrying hours past 99 without
    truncation": the whole hours of the duration, the minutes that remain,
    and no seconds. *)
Definition to_torque_time (minutes : Z) : string :=
  let hours := minutes `div` 60 in
  let remain_mins := minutes `mod` 60 in
  pad2 hours +:+ ":" +:+ pad2 remain_mins +:+ ":00".

(** Whether [s] starts with [prefix], and what follows it. *)
Fixpoint strip_prefix (prefix s : string) : option string :=
  match prefix, s with
  | EmptyString, _ => Some s
  | String a prefix', String b s' =>
      if decide (a = b) then strip_prefix prefix' s' else None
  | String _ _, EmptyString => None
  end.

(** What follows the first occurrence of [field] in [s]. *)
Fixpoint find_after (field s : string) : option string :=
  match strip_prefix field s with
  | Some rest => Some rest
  | None =>
      match s with
      | EmptyString => None
      | String _ s' => find_after field s'
      end
  end.

Definition is_upper (c : ascii) : bool :=
  let n := nat_of_ascii c in (65 <=? n)%nat && (n <=? 90)%nat.

Fixpoint take_while (keep : ascii → bool) (s : string) : string :=
  match s with
  | String c s' => if keep c then String c (take_while keep s') else EmptyString
  | EmptyString => EmptyString
  end.

(** Modelled from the spec: [extract_slurm_status] is defined in
    [haddock/libs/libhpc.py], which is not among the sources. It parses the
    "free-form, table-like text output" of the status query into the state
    the queue reports in its [JobState=] field, and "must tolerate the job
    id not found case" by mapping an output without that field "to a
    terminal state": the tests name it [ERROR]. *)
Definition extract_slurm_status (slurm_out : string) : string :=
  match find_after "JobState=" slurm_out with
  | Some rest => take_while is_upper rest
  | None => "ERROR"
  end.

(** Modelled from the spec: [JOB_STATUS_DIC] is defined in
    [haddock/libs/libhpc.py], which is not among the sources. It sends the
    queue's states to the "small closed set of states: running, pending,
    error, completed/unknown". *)
Definition JOB_STATUS_DIC : list (string * string) :=
  [("PENDING", "pending"); ("RUNNING", "running"); ("ERROR", "error");
   ("COMPLETED", "completed")].

(** [d[key]] of a dictionary kept as a list of items. *)
Definition dict_get {V} (d : list (string * V)) (key : string) : option V :=
  snd <$> find (λ item, bool_decide (item.1 = key)) d.

(** A job in one of these states is polled again; any other state ends the
    polling. *)
Definition non_terminal (state : string) : bool :=
  bool_decide (state = "running") || bool_decide (state = "pending").

(** The fixtures of [tests/test_libhpc.py]. *)
Definition slurm_scontrol_terminated_jobid : string :=
"JobId=42909924 JobName=proabc2.job
   UserId=enmr(1095) GroupId=users(100) MCS_label=N/A
   Priority=1 Nice=0 Account=(null) QOS=normal
   JobState=RUNNING Reason=None Dependency=(null)
   Requeue=1 Restarts=0 BatchFlag=1 Reboot=0 ExitCode=0:0
   DerivedExitCode=0:0
   RunTime=00:00:01 TimeLimit=04:00:00 TimeMin=N/A
   SubmitTime=2023-10-17T10:03:01 EligibleTime=2023-10-17T10:03:01
   AccrueTime=2023-10-17T10:03:01
   StartTime=2023-10-17T10:03:02 EndTime=2023-10-17T14:03:02 Deadline=N/A
   PreemptTime=None SuspendTime=None SecsPreSuspend=0
   LastSchedEval=2023-10-17T10:03:02
   Partition=short AllocNode:Sid=bianca:124111
   ReqNodeList=(null) ExcNodeList=(null)
   NodeList=node011
   BatchHost=node011
   NumNodes=1 NumCPUs=1 NumTasks=1 CPUs/Task=1 ReqB:S:C:T=0:0:*:*
   TRES=cpu=1,node=1,billing=1
   Socks/Node=* NtasksPerN:B:S:C=0:0:*:* CoreSpec=*
     Nodes=node011 CPU_IDs=4 Mem=0 GRES_IDX=
   MinCPUsNode=1 MinMemoryNode=0 MinTmpDiskNode=0
   Features=(null) DelayBoot=00:00:00
   OverSubscribe=OK Contiguous=0 Licenses=(null) Network=(null)
   Command=/trinity/home/enmr/csb_webserver/data/runs/proabc2/nAO_3OnarD4a/proabc2.job
   WorkDir=/trinity/home/enmr/csb_webserver/data/runs/proabc2
   StdErr=/trinity/home/enmr/csb_webserver/data/runs/proabc2/nAO_3OnarD4a/proabc2.err
   StdIn=/dev/null
   StdOut=/trinity/home/enmr/csb_webserver/data/runs/proabc2/nAO_3OnarD4a/proabc2.out
   Power=
".

Definition slurm_scontrol_wrongjobid : string :=
  "slurm_load_jobs error: Invalid job id specified".

(** C4. [to_torque_time] renders a duration of [m] minutes as the hours
    [m // 60], the minutes [m % 60] and ["00"] seconds, each of the first
    two padded to two digits and the hours written in full from 10 on, so
    nothing of them is cut past 99; and it sends 10, 60, 70, 1510 and 6070
    to the tokens of the test. *)
Theorem to_torque_time_format :
  (∀ m : Z,
      to_torque_time m
      = pad2 (m `div` 60) +:+ ":" +:+ pad2 (m `mod` 60) +:+ ":00")
  ∧ (∀ hours : Z, 10 ≤ hours → pad2 hours = str_int hours)
  ∧ (∀ m : Z, String.length (pad2 (m `mod` 60)) = 2%nat)
  ∧ to_torque_time 10 = "00:10:00"
  ∧ to_torque_time 60 = "01:00:00"
  ∧ to_torque_time 70 = "01:10:00"
  ∧ to_torque_time 1510 = "25:10:00"
  ∧ to_torque_time 6070 = "101:10:00".
Proof.
  split; [reflexivity|]. split.
  { intros hours Hh. unfold pad2. case_decide; [lia|done]. }
  split.
  { intros m.
    assert (Hall : Forall (λ r, String.length (pad2 r) = 2%nat) (seqZ 0 60))
      by (vm_compute; repeat constructor).
    rewrite Forall_seqZ in Hall. apply Hall.
    pose proof (Z.mod_pos_bound m 60). lia. }
  repeat split; reflexivity.
Qed.

(** The output of the test, cut around its [JobState=RUNNING] field. *)
Definition scontrol_head : string :=
"JobId=42909924 JobName=proabc2.job
   UserId=enmr(1095) GroupId=users(100) MCS_label=N/A
   Priority=1 Nice=0 Account=(null) QOS=normal
   ".

Definition scontrol_tail : string :=
" Reason=None Dependency=(null)
   Requeue=1 Restarts=0 BatchFlag=1 Reboot=0 ExitCode=0:0
   DerivedExitCode=0:0
   RunTime=00:00:01 TimeLimit=04:00:00 TimeMin=N/A
   SubmitTime=2023-10-17T10:03:01 EligibleTime=2023-10-17T10:03:01
   AccrueTime=2023-10-17T10:03:01
   StartTime=2023-10-17T10:03:02 EndTime=2023-10-17T14:03:02 Deadline=N/A
   PreemptTime=None SuspendTime=None SecsPreSuspend=0
   LastSchedEval=2023-10-17T10:03:02
   Partition=short AllocNode:Sid=bianca:124111
   ReqNodeList=(null) ExcNodeList=(null)
   NodeList=node011
   BatchHost=node011
   NumNodes=1 NumCPUs=1 NumTasks=1 CPUs/Task=1 ReqB:S:C:T=0:0:*:*
   TRES=cpu=1,node=1,billing=1
   Socks/Node=* NtasksPerN:B:S:C=0:0:*:* CoreSpec=*
     Nodes=node011 CPU_IDs=4 Mem=0 GRES_IDX=
   MinCPUsNode=1 MinMemoryNode=0 MinTmpDiskNode=0
   Features=(null) DelayBoot=00:00:00
   OverSubscribe=OK Contiguous=0 Licenses=(null) Network=(null)
   Command=/trinity/home/enmr/csb_webserver/data/runs/proabc2/nAO_3OnarD4a/proabc2.job
   WorkDir=/trinity/home/enmr/csb_webserver/data/runs/proabc2
   StdErr=/trinity/home/enmr/csb_webserver/data/runs/proabc2/nAO_3OnarD4a/proabc2.err
   StdIn=/dev/null
   StdOut=/trinity/home/enmr/csb_webserver/data/runs/proabc2/nAO_3OnarD4a/proabc2.out
   Power=
".

(** No [JobState=] field starts inside [head]: the text [head] followed by
    all of the field but its last character does not hold it. *)
Definition no_field_in (head : string) : Prop :=
  find_after "JobState=" (head +:+ "JobState") = None.

(** What follows the state does not go on with a capital. *)
Definition ends_state (tail : string) : bool :=
  match tail with
  | String c _ => negb (is_upper c)
  | EmptyString => true
  end.

Lemma append_cons (x : ascii) (a b : string) : String x a +:+ b = String x (a +:+ b).
Proof. reflexivity. Qed.

Lemma append_assoc (a b c : string) : (a +:+ b) +:+ c = a +:+ (b +:+ c).
Proof. induction a as [|x a IH]; [done|]. rewrite !append_cons. by rewrite IH. Qed.

Lemma length_append (a b : string) :
  String.length (a +:+ b) = (String.length a + String.length b)%nat.
Proof. induction a as [|x a IH]; [done|]. rewrite append_cons. simpl. by rewrite IH. Qed.

Lemma find_after_eq (field s : string) :
  find_after field s
  = match strip_prefix field s with
    | Some rest => Some rest
    | None => match s with
              | EmptyString => None
              | String _ s' => find_after field s'
              end
    end.
Proof. by destruct s. Qed.

Lemma strip_prefix_app (field rest : string) :
  strip_prefix field (field +:+ rest) = Some rest.
Proof.
  induction field as [|a field IH]; [by destruct rest|].
  rewrite append_cons. simpl. by rewrite decide_True.
Qed.

(** A text at least as long as the field that does not start with it does
    not start with it when it is continued. *)
Lemma strip_prefix_none_app (field s t : string) :
  (String.length field ≤ String.length s)%nat →
  strip_prefix field s = None → strip_prefix field (s +:+ t) = None.
Proof.
  revert s. induction field as [|a field IH]; intros s Hlen; [by destruct s|].
  destruct s as [|b s]; [simpl in Hlen; lia|].
  rewrite append_cons. simpl in *.
  case_decide; [|done]. apply IH. lia.
Qed.

(** The first occurrence of a field is the one that is found. *)
Lemma find_after_first (f0 : string) (c : ascii) (head rest : string) :
  find_after (f0 +:+ String c "") (head +:+ f0) = None →
  find_after (f0 +:+ String c "") (head +:+ (f0 +:+ String c "") +:+ rest) = Some rest.
Proof.
  induction head as [|a head IH]; intros Hnone.
  - change ("" +:+ (f0 +:+ String c "") +:+ rest) with ((f0 +:+ String c "") +:+ rest).
    by rewrite find_after_eq, strip_prefix_app.
  - rewrite append_cons in Hnone. rewrite find_after_eq in Hnone.
    destruct (strip_prefix (f0 +:+ String c "") (String a (head +:+ f0)))
      as [found|] eqn:Hhere; [done|].
    rewrite append_cons, find_after_eq.
    assert (Hcut : String a (head +:+ (f0 +:+ String c "") +:+ rest)
                   = String a (head +:+ f0) +:+ String c rest).
    { rewrite append_cons. f_equal. rewrite !append_assoc. do 2 f_equal. }
    rewrite Hcut at 1.
    rewrite strip_prefix_none_app;
      [by apply IH|rewrite length_append; simpl; rewrite !length_append; simpl; lia|done].
Qed.

Lemma take_while_state (keep : ascii → bool) (state tail : string) :
  every_char keep state = true →
  match tail with String c _ => keep c = false | EmptyString => True end →
  take_while keep (state +:+ tail) = state.
Proof.
  intros Hstate Htail. induction state as [|c state IH].
  - destruct tail as [|c tail]; [done|]. simpl. by rewrite Htail.
  - rewrite append_cons. simpl in *.
    apply andb_prop in Hstate as [-> Hstate]. by rewrite IH.
Qed.

(** The state the parser returns for a text whose first [JobState=] field
    bears [state]. *)
Lemma extract_slurm_status_field (head state tail : string) :
  no_field_in head → every_char is_upper state = true → ends_state tail = true →
  extract_slurm_status (head +:+ "JobState=" +:+ state +:+ tail) = state.
Proof.
  intros Hhead Hstate Htail. unfold extract_slurm_status.
  pose proof (find_after_first "JobState" "=" head (state +:+ tail) Hhead) as Hfound.
  change ("JobState" +:+ "=") with "JobState=" in Hfound. rewrite Hfound.
  apply take_while_state; [done|].
  destruct tail as [|c tail]; [done|]. simpl in Htail. by apply negb_true_iff.
Qed.

Example scontrol_output_is_cut :
  slurm_scontrol_terminated_jobid
  = scontrol_head +:+ "JobState=" +:+ "RUNNING" +:+ scontrol_tail
  ∧ find_after "JobState=" (scontrol_head +:+ "JobState") = None
  ∧ ends_state scontrol_tail = true.
Proof. repeat split; vm_compute; reflexivity. Qed.

(** C5. For every output of [scontrol] whose first [JobState=] field reads
    [RUNNING], the state ending where the capitals end, the parser returns
    [RUNNING], which the dictionary classifies as [running]; the output of
    the test is one of them. For every text without a [JobState=] field, as
    the "Invalid job id specified" error of the test is, it returns
    [ERROR], which the dictionary classifies as [error], a state that ends
    the polling. *)
Theorem slurm_status_parsing :
  (∀ head tail,
      no_field_in head → ends_state tail = true →
      extract_slurm_status (head +:+ "JobState=" +:+ "RUNNING" +:+ tail) = "RUNNING"
      ∧ dict_get JOB_STATUS_DIC
          (extract_slurm_status (head +:+ "JobState=" +:+ "RUNNING" +:+ tail))
        = Some "running")
  ∧ (∀ head state tail,
        no_field_in head → every_char is_upper state = true → ends_state tail = true →
        extract_slurm_status (head +:+ "JobState=" +:+ state +:+ tail) = state)
  ∧ (∀ out,
        find_after "JobState=" out = None →
        extract_slurm_status out = "ERROR"
        ∧ dict_get JOB_STATUS_DIC (extract_slurm_status out) = Some "error"
        ∧ non_terminal "error" = false)
  ∧ (slurm_scontrol_terminated_jobid
     = scontrol_head +:+ "JobState=" +:+ "RUNNING" +:+ scontrol_tail
     ∧ no_field_in scontrol_head ∧ ends_state scontrol_tail = true)
  ∧ extract_slurm_status slurm_scontrol_terminated_jobid = "RUNNING"
  ∧ find_after "JobState=" slurm_scontrol_wrongjobid = None
  ∧ extract_slurm_status slurm_scontrol_wrongjobid = "ERROR".
Proof.
  split; [|split; [|split; [|split]]].
  - intros head tail Hhead Htail.
    assert (Hstate : extract_slurm_status (head +:+ "JobState=" +:+ "RUNNING" +:+ tail)
                     = "RUNNING") by (by apply extract_slurm_status_field).
    by rewrite Hstate.
  - intros head state tail. apply extract_slurm_status_field.
  - intros out Hnone. unfold extract_slurm_status. by rewrite Hnone.
  - repeat split; vm_compute; reflexivity.
  - repeat split; vm_compute; reflexivity.
Qed.

End Libhpc.

(** ** haddock.gear.config_reader, as the specification and its tests tell it *)

Module ConfigReader.

(** *** Values and trees *)

#[local] Set Warnings "-register-all".

(** A float literal is kept as its decimal digits: [mantissa / 10 ^ places],
    without trailing zeros. *)
Inductive value : Type :=
  | VInt (n : Z)
  | VFloat (mantissa : Z) (places : nat)
  | VNan
  | VBool (b : bool)
  | VStr (s : string)
  | VPath (p : Path)
  | VList (items : list value).

(** A dictionary keeps its keys in the order they were first set. *)
Inductive item : Type :=
  | Leaf (v : value)
  | Table (entries : list (string * item)).

Abbreviation dict := (list (string * item)).

(** [d[k] = v]: a key already there keeps its place. *)
Fixpoint set_key {K V} `{EqDecision K} (k : K) (v : V) (d : list (K * V))
    : list (K * V) :=
  match d with
  | [] => [(k, v)]
  | (k', v') :: d' =>
      if decide (k' = k) then (k, v) :: d' else (k', v') :: set_key k v d'
  end.

Fixpoint get_key {K V} `{EqDecision K} (k : K) (d : list (K * V)) : option V :=
  match d with
  | [] => None
  | (k', v') :: d' => if decide (k' = k) then Some v' else get_key k d'
  end.

(** [d.setdefault(s, {})] along a path of sub-sections, then [change] on the
    innermost table. *)
Fixpoint update_path (path : list string) (change : dict → dict) (d : dict) : dict :=
  match path with
  | [] => change d
  | s :: path' =>
      let sub := match get_key s d with Some (Table t) => t | _ => [] end in
      set_key s (Table (update_path path' change sub)) d
  end.

(** *** Lines *)

Definition dquote : ascii := ascii_of_nat 34.
Definition newline : ascii := ascii_of_nat 10.

Definition is_blank (c : ascii) : bool :=
  bool_decide (c = " "%char) || bool_decide (c = ascii_of_nat 9)
  || bool_decide (c = ascii_of_nat 13).

Definition in_range (lo hi : nat) (c : ascii) : bool :=
  let n := nat_of_ascii c in (lo <=? n)%nat && (n <=? hi)%nat.
Definition is_digit (c : ascii) : bool := in_range 48 57 c.

(** A character of an identifier: a letter, a digit or the underscore. *)
Definition is_word (c : ascii) : bool :=
  in_range 97 122 c || in_range 65 90 c || is_digit c || bool_decide (c = "_"%char).

Fixpoint all_chars (p : ascii → bool) (s : string) : bool :=
  match s with
  | EmptyString => true
  | String c s' => p c && all_chars p s'
  end.

Definition identifier (s : string) : bool :=
  negb (bool_decide (s = "")) && all_chars is_word s.

Fixpoint ltrim (s : string) : string :=
  match s with
  | String c s' => if is_blank c then ltrim s' else s
  | EmptyString => EmptyString
  end.
Definition trim (s : string) : string := String.rev (ltrim (String.rev (ltrim s))).

(** The line up to a [#] that is not inside a quoted string. *)
Fixpoint strip_comment (quoted : bool) (s : string) : string :=
  match s with
  | EmptyString => EmptyString
  | String c s' =>
      if bool_decide (c = "#"%char) && negb quoted then EmptyString
      else String c (strip_comment (if decide (c = dquote) then negb quoted else quoted) s')
  end.

(** [s] cut at each [sep] that is not inside a quoted string. *)
Fixpoint split_outside (sep : ascii) (quoted : bool) (s : string) : list string :=
  match s with
  | EmptyString => [EmptyString]
  | String c s' =>
      if bool_decide (c = sep) && negb quoted then EmptyString :: split_outside sep false s'
      else
        match split_outside sep (if decide (c = dquote) then negb quoted else quoted) s' with
        | x :: xs => String c x :: xs
        | [] => [String c EmptyString]
        end
  end.

(** [s] cut at the first [sep]. *)
Fixpoint cut_at (sep : ascii) (s : string) : option (string * string) :=
  match s with
  | EmptyString => None
  | String c s' =>
      if decide (c = sep) then Some (EmptyString, s')
      else '(before, after) ← cut_at sep s'; Some (String c before, after)
  end.

Definition first_char (s : string) : option ascii :=
  match s with String c _ => Some c | EmptyString => None end.
Definition last_char (s : string) : option ascii := first_char (String.rev s).

(** [s] without its first and its last character. *)
Definition inner (s : string) : string :=
  match s with
  | String _ s' => String.rev (match String.rev s' with String _ r => r | EmptyString => EmptyString end)
  | EmptyString => EmptyString
  end.

(** *** Literals *)

Fixpoint digits_value (acc : Z) (s : string) : Z :=
  match s with
  | EmptyString => acc
  | String c s' => digits_value (10 * acc + (Z.of_nat (nat_of_ascii c) - 48)) s'
  end.

Definition all_digits (s : string) : bool :=
  negb (bool_decide (s = "")) && all_chars is_digit s.

(** Trailing zeros of the fraction carry no value. *)
Fixpoint without_trailing_zeros (fuel : nat) (mantissa : Z) (places : nat) : Z * nat :=
  match fuel, places with
  | S fuel', S places' =>
      if decide (mantissa `mod` 10 = 0)
      then without_trailing_zeros fuel' (mantissa `div` 10) places'
      else (mantissa, places)
  | _, _ => (mantissa, places)
  end.

Definition parse_number (s : string) : option value :=
  let '(sign, body) :=
    match s with
    | String "-" s' => (-1, s')
    | String "+" s' => (1, s')
    | _ => (1, s)
    end in
  match cut_at "." body with
  | None => if all_digits body then Some (VInt (sign * digits_value 0 body)) else None
  | Some (whole, fraction) =>
      if all_digits whole && all_digits fraction then
        let '(m, p) :=
          without_trailing_zeros (String.length fraction)
            (digits_value 0 (whole +:+ fraction)) (String.length fraction) in
        Some (VFloat (sign * m) p)
      else None
  end.

(** A string that reads as a path: it starts at the root, at [.] or at
    [..]. *)
Definition path_like (s : string) : bool :=
  bool_decide (is_Some (Libhpc.strip_prefix "/" s))
  || bool_decide (is_Some (Libhpc.strip_prefix "./" s))
  || bool_decide (is_Some (Libhpc.strip_prefix "../" s)).

(** Modelled from the spec: the literals of
    [haddock/gear/config_reader.py], which is not among the sources:
    "double-quoted strings, integers, floats (including a dedicated
    not-a-number literal), booleans", the booleans "case-sensitive
    keywords", and "path-like string values are normalized to
    platform-neutral path values". *)
Definition parse_scalar (s : string) : result value :=
  if bool_decide (s = "true") then Ok (VBool true)
  else if bool_decide (s = "false") then Ok (VBool false)
  else if bool_decide (s = "nan") then Ok VNan
  else if bool_decide (first_char s = Some dquote) then
    if bool_decide (last_char s = Some dquote) && (2 <=? String.length s)%nat then
      let text := inner s in
      Ok (if path_like text then VPath (Path_of_string text) else VStr text)
    else Raise (ConfigSyntaxError ("unterminated string: " +:+ s))
  else
    match parse_number s with
    | Some v => Ok v
    | None => Raise (ConfigSyntaxError ("not a value: " +:+ s))
    end.

(** [mapM] over a list, stopping at the first exception. *)
Fixpoint collect {A B} (f : A → result B) (l : list A) : result (list B) :=
  match l with
  | [] => Ok []
  | x :: l' => y ← f x; ys ← collect f l'; Ok (y :: ys)
  end.

Definition parse_value (s : string) : result value :=
  if bool_decide (first_char s = Some "["%char) then
    if bool_decide (last_char s = Some "]"%char) then
      let elements := filter (λ e, e ≠ "") (trim <$> split_outside "," false (inner s)) in
      items ← collect parse_scalar elements; Ok (VList items)
    else Raise (ConfigSyntaxError ("unterminated list: " +:+ s))
  else parse_scalar s.

(** *** Lines of a configuration *)

Inductive line : Type :=
  | MainHeader (name : string)
  | SubHeader (name : string) (subs : list string)
  | Assign (key : string) (v : value).

(** [[name]] opens a top-level section, [[name.sub...]] a nested one; the
    segments are identifiers. *)
Definition parse_header (s : string) : result line :=
  if bool_decide (last_char s = Some "]"%char) then
    match split_on "." (inner s) with
    | name :: subs =>
        if forallb identifier (name :: subs) then
          Ok (match subs with [] => MainHeader name | _ => SubHeader name subs end)
        else Raise (ConfigSyntaxError ("malformed section header: " +:+ s))
    | [] => Raise (ConfigSyntaxError ("malformed section header: " +:+ s))
    end
  else Raise (ConfigSyntaxError ("malformed section header: " +:+ s)).

Definition parse_assignment (s : string) : result line :=
  match cut_at "=" s with
  | Some (key, text) =>
      if identifier (trim key) then v ← parse_value (trim text); Ok (Assign (trim key) v)
      else Raise (ConfigSyntaxError ("malformed key: " +:+ s))
  | None => Raise (ConfigSyntaxError ("not a section nor a parameter: " +:+ s))
  end.

Definition parse_line (s : string) : result line :=
  if bool_decide (first_char s = Some "["%char) then parse_header s
  else parse_assignment s.

Fixpoint contains (c : ascii) (s : string) : bool :=
  match s with
  | EmptyString => false
  | String c' s' => bool_decide (c' = c) || contains c s'
  end.

(** Whether a line starts a list that it does not close. *)
Definition opens_list (s : string) : bool :=
  match cut_at "=" s with
  | Some (_, text) =>
      bool_decide (first_char (trim text) = Some "["%char) && negb (contains "]" text)
  | None => false
  end.

(** The lines without comments and blanks, a list spread over several lines
    brought back to one. [pending] is the list still open, if any. *)
Fixpoint logical_lines (pending : option string) (ls : list string)
    : result (list string) :=
  match ls with
  | [] =>
      match pending with
      | None => Ok []
      | Some open => Raise (ConfigSyntaxError ("unterminated list: " +:+ open))
      end
  | l :: ls' =>
      let l := trim (strip_comment false l) in
      match pending with
      | Some open =>
          if contains "]" l then rest ← logical_lines None ls'; Ok ((open +:+ l) :: rest)
          else logical_lines (Some (open +:+ l)) ls'
      | None =>
          if bool_decide (l = "") then logical_lines None ls'
          else if opens_list l then logical_lines (Some l) ls'
          else rest ← logical_lines None ls'; Ok (l :: rest)
      end
  end.

(** Modelled from the spec: the scanner of [haddock/gear/config_reader.py],
    which is not among the sources. "Scan line by line": comments "begin
    with [#] and run to end of line, permitted after any construct including
    section headers", a header opens a top-level or a nested section, a
    [key = value] line sets a parameter, and "bracketed lists" may have
    their elements "spread across multiple lines"; a malformed header or an
    unterminated list is a syntax error. *)
Definition lex (text : string) : result (list line) :=
  ls ← logical_lines None (split_on newline text);
  collect parse_line ls.

(** *** Building the tree *)

(** The instance of a top-level section: its name and its rank among the
    declarations of that name. *)
Definition instance : Type := string * nat.

Record state : Type := mkState {
  counter : gmap string nat;
  root : list (string * value);
  instances : list (instance * dict);
  current : option (instance * list string);
}.

Definition init : state := mkState ∅ [] [] None.

(** [change] applied to the table of one instance. *)
Definition alter_instance (which : instance) (change : dict → dict)
    (l : list (instance * dict)) : list (instance * dict) :=
  (λ entry, if decide (entry.1 = which) then (entry.1, change entry.2) else entry) <$> l.

(** Modelled from the spec: the section bookkeeping of
    [haddock/gear/config_reader.py], which is not among the sources. "Track
    a per-top-level-name repetition counter": a bare declaration increments
    it "and starts a new instance; values are never merged across
    instances"; "nested sections attach as children of [a]'s last-declared
    instance"; "outside any section, [key = value] lines populate the root
    mapping; inside a section, they populate the current (innermost open)
    section/instance". *)
Definition step (st : state) (l : line) : result state :=
  match l with
  | MainHeader name =>
      let count := S (default 0%nat (counter st !! name)) in
      Ok (mkState (<[name := count]> (counter st)) (root st)
            (instances st ++ [((name, count), [])])
            (Some ((name, count), [])))
  | SubHeader name subs =>
      match counter st !! name with
      | Some count =>
          Ok (mkState (counter st) (root st)
                (alter_instance (name, count) (update_path subs id) (instances st))
                (Some ((name, count), subs)))
      | None =>
          Raise (ConfigSyntaxError ("sub-section of an undeclared section: " +:+ name))
      end
  | Assign key v =>
      match current st with
      | None => Ok (mkState (counter st) (set_key key v (root st)) (instances st) None)
      | Some (which, path) =>
          Ok (mkState (counter st) (root st)
                (alter_instance which (update_path path (set_key key (Leaf v)))
                   (instances st))
                (current st))
      end
  end.

Fixpoint run (st : state) (ls : list line) : result state :=
  match ls with
  | [] => Ok st
  | l :: ls' => st' ← step st l; run st' ls'
  end.

(** Modelled from the spec: the keys of the tree that [loads] of
    [haddock/gear/config_reader.py] returns, which is not among the sources.
    "A section name that repeats becomes [name.1], [name.2], ... in
    first-seen order"; a name that does not repeat keeps the bare name, as
    the trees expected by [tests/test_config_reader.py] have it ([module]
    and [header] in its second and third examples, [headerone.1] and
    [headerone.2] in its first). *)
Definition instance_key (counter : gmap string nat) (which : instance) : string :=
  if decide (counter !! which.1 = Some 1%nat) then which.1
  else which.1 +:+ "." +:+ str_int (Z.of_nat which.2).

Definition render (st : state) : dict :=
  ((λ entry, (entry.1, Leaf entry.2)) <$> root st)
  ++ ((λ entry, (instance_key (counter st) entry.1, Table entry.2)) <$> instances st).

(** Modelled from the spec: [loads] of [haddock/gear/config_reader.py],
    which is not among the sources: "[load(text) -> Config Tree]", the root
    parameters first, then the instances in first-seen order; [build] is
    the same from the lines. *)
Definition build (ls : list line) : result dict := st ← run init ls; Ok (render st).
Definition loads (text : string) : result dict := lex text ≫= build.

(** *** The expected trees of [tests/test_config_reader.py] *)

(** Python compares two dictionaries whatever the order of their keys, and
    two lists element by element. *)
Fixpoint value_eqb (a b : value) : bool :=
  match a, b with
  | VInt n, VInt m => bool_decide (n = m)
  | VFloat m p, VFloat m' p' => bool_decide (m = m') && bool_decide (p = p')
  | VBool x, VBool y => bool_decide (x = y)
  | VStr x, VStr y => bool_decide (x = y)
  | VPath x, VPath y => bool_decide (x = y)
  | VList l, VList l' =>
      (fix all (l l' : list value) : bool :=
         match l, l' with
         | [], [] => true
         | x :: l, y :: l' => value_eqb x y && all l l'
         | _, _ => false
         end) l l'
  | _, _ => false
  end.

Fixpoint item_eqb (a b : item) : bool :=
  match a, b with
  | Leaf v, Leaf v' => value_eqb v v'
  | Table d, Table d' =>
      bool_decide (length d = length d')
      && (fix all (d : dict) : bool :=
            match d with
            | [] => true
            | (k, x) :: d0 =>
                match get_key k d' with
                | Some y => item_eqb x y
                | None => false
                end && all d0
            end) d
  | _, _ => false
  end.

(** [r == expected] for the result of [loads]. *)
Definition equals (r : result dict) (expected : dict) : bool :=
  match r with
  | Ok d => item_eqb (Table d) (Table expected)
  | Raise _ => false
  end.

(** The texts of the tests hold double quotes; they are written here with
    apostrophes, which none of them has, and put back. *)
Fixpoint with_double_quotes (s : string) : string :=
  match s with
  | EmptyString => EmptyString
  | String c s' =>
      String (if decide (c = "'"%char) then dquote else c) (with_double_quotes s')
  end.

Definition _config_example_1 : string := with_double_quotes "
# some comment
num1 = 10
name='somestring'
w_vdw_1 = 1.0
w_vdw_0 = 0.01
w_vdw_2 = 1.0
[headerone]
name = 'theotherstring'
_list = [
    12,
    15,
    ]

[headerone.weights]
val = 1
bsa = 0.1
elec = -1
list1 = [1, 2,3]

[headerone] #some comment
[headerone.weights]
other = 50
".

Definition _config_example_dict_1 : dict :=
  [("num1", Leaf (VInt 10));
   ("name", Leaf (VStr "somestring"));
   ("w_vdw_0", Leaf (VFloat 1 2));
   ("w_vdw_1", Leaf (VFloat 1 0));
   ("w_vdw_2", Leaf (VFloat 1 0));
   ("headerone.1",
    Table [("name", Leaf (VStr "theotherstring"));
           ("_list", Leaf (VList [VInt 12; VInt 15]));
           ("weights",
            Table [("val", Leaf (VInt 1));
                   ("bsa", Leaf (VFloat 1 1));
                   ("elec", Leaf (VInt (-1)));
                   ("list1", Leaf (VList [VInt 1; VInt 2; VInt 3]))])]);
   ("headerone.2", Table [("weights", Table [("other", Leaf (VInt 50))])])].

Definition _config_example_2 : string := with_double_quotes "num1 = 10
molecules = ['../some/file', '../some/otherfile']
[module]
some_path_fname = './pointing/to/some/path'
[module.d1]
var1 = 1
[module.d1.d2]
var3 = true
list_ = [
    1,
    2,
    3, 4
    ]
".

Definition _config_example_dict_2 : dict :=
  [("num1", Leaf (VInt 10));
   ("molecules",
    Leaf (VList [VPath (Path_of_string "../some/file");
                 VPath (Path_of_string "../some/otherfile")]));
   ("module",
    Table [("some_path_fname", Leaf (VPath (Path_of_string "pointing/to/some/path")));
           ("d1",
            Table [("var1", Leaf (VInt 1));
                   ("d2",
                    Table [("var3", Leaf (VBool true));
                           ("list_", Leaf (VList [VInt 1; VInt 2; VInt 3; VInt 4]))])])])].

Definition _config_example_3 : string := "
val = 1
[header]
[header.d1]
val2 = 10
val3 = 20
".

Definition _config_example_dict_3 : dict :=
  [("val", Leaf (VInt 1));
   ("header", Table [("d1", Table [("val2", Leaf (VInt 10)); ("val3", Leaf (VInt 20))])])].

(** [test_load] passes on its three examples. *)
Example test_load :
  equals (loads _config_example_1) _config_example_dict_1 = true
  ∧ equals (loads _config_example_2) _config_example_dict_2 = true
  ∧ equals (loads _config_example_3) _config_example_dict_3 = true.
Proof. repeat split; vm_compute; reflexivity. Qed.

(** The headers the tests of the two regular expressions accept and
    refuse. *)
Example test_headers :
  parse_header "[header]" = Ok (MainHeader "header")
  ∧ parse_header "[under_scores_work]" = Ok (MainHeader "under_scores_work")
  ∧ parse_header "[another.header.h3]" = Ok (SubHeader "another" ["header"; "h3"])
  ∧ (∀ l, parse_header "[[header]]" ≠ Ok l)
  ∧ (∀ l, parse_header "[header with spaces]" ≠ Ok l)
  ∧ (∀ l, parse_header "[not.valid with spaces]" ≠ Ok l).
Proof. repeat split; try reflexivity; intros l; vm_compute; discriminate. Qed.

Example loads_repeated :
  loads "[h]
a=1
[h]
b=2
"
  = Ok [("h.1", Table [("a", Leaf (VInt 1))]); ("h.2", Table [("b", Leaf (VInt 2))])].
Proof. reflexivity. Qed.

(** *** The builder, line by line *)

(** The parameters of a section, one line each, and the table they make
    of [d]. *)
Definition assigns (kvs : list (string * value)) : list line :=
  (λ kv, Assign kv.1 kv.2) <$> kvs.
Definition sets (kvs : list (string * value)) (d : dict) : dict :=
  foldl (λ d kv, set_key kv.1 (Leaf kv.2) d) d kvs.

(** How many times [h] is declared as a top-level section. *)
Definition declares (h : string) (l : line) : bool :=
  match l with MainHeader name => bool_decide (name = h) | _ => false end.
Definition declarations (h : string) (ls : list line) : nat :=
  length (filter (λ l, Is_true (declares h l)) ls).

(** Every instance bears a name that the counter knows. *)
Definition wf (st : state) : Prop :=
  ∀ which, which ∈ (fst <$> instances st) → is_Some (counter st !! which.1).

Lemma run_app st l1 l2 :
  run st (l1 ++ l2) = (run st l1 ≫= λ st', run st' l2).
Proof.
  revert st. induction l1 as [|l l1 IH]; intros st; simpl; [done|].
  unfold mbind at 1 3. unfold result_bind at 1 3.
  destruct (step st l) as [st'|e]; [apply IH|done].
Qed.

Lemma get_set_key {K V} `{EqDecision K} (k : K) (v : V) d :
  get_key k (set_key k v d) = Some v.
Proof.
  induction d as [|[k' v'] d IH]; simpl.
  - by rewrite decide_True.
  - destruct (decide (k' = k)) as [->|Hne]; simpl.
    + by rewrite decide_True.
    + by rewrite decide_False.
Qed.

Lemma set_set_key {K V} `{EqDecision K} (k : K) (v v' : V) d :
  set_key k v' (set_key k v d) = set_key k v' d.
Proof.
  induction d as [|[k0 v0] d IH]; simpl.
  - by rewrite decide_True.
  - destruct (decide (k0 = k)) as [->|Hne]; simpl.
    + by rewrite decide_True.
    + rewrite decide_False by done. by rewrite IH.
Qed.

Lemma update_path_compose path (f g : dict → dict) d :
  update_path path f (update_path path g d) = update_path path (f ∘ g) d.
Proof.
  revert d. induction path as [|s path IH]; intros d; simpl; [done|].
  by rewrite get_set_key, set_set_key, IH.
Qed.

Lemma alter_instance_compose which (f g : dict → dict) l :
  alter_instance which f (alter_instance which g l) = alter_instance which (f ∘ g) l.
Proof.
  unfold alter_instance. rewrite <- list_fmap_compose.
  apply list_fmap_ext. intros i [w d] _. simpl.
  destruct (decide (w = which)); simpl; [by rewrite decide_True|by rewrite decide_False].
Qed.

Lemma alter_instance_ext which (f g : dict → dict) l :
  (∀ d, f d = g d) → alter_instance which f l = alter_instance which g l.
Proof.
  intros Hfg. apply list_fmap_ext. intros i [w d] _. simpl.
  by rewrite Hfg.
Qed.

Lemma alter_instance_fst which f l : fst <$> alter_instance which f l = fst <$> l.
Proof.
  unfold alter_instance. rewrite <- list_fmap_compose.
  apply list_fmap_ext. intros i [w d] _. simpl. by destruct (decide (w = which)).
Qed.

Lemma alter_instance_fresh which f l :
  which ∉ (fst <$> l) → alter_instance which f l = l.
Proof.
  intros Hfresh. unfold alter_instance.
  rewrite <- (list_fmap_id l) at 2. apply list_fmap_ext.
  intros i [w d] Hi. simpl. rewrite decide_False; [done|].
  intros ->. apply Hfresh. apply list_elem_of_fmap.
  exists (which, d). split; [done|]. by eapply list_elem_of_lookup_2.
Qed.

Lemma alter_instance_last which f l d :
  which ∉ (fst <$> l) →
  alter_instance which f (l ++ [(which, d)]) = l ++ [(which, f d)].
Proof.
  intros Hfresh. unfold alter_instance at 1. rewrite fmap_app.
  fold (alter_instance which f l). rewrite alter_instance_fresh by done.
  simpl. by rewrite decide_True.
Qed.

(** Parameters outside any section go to the root. *)
Lemma run_assigns_root kvs st :
  current st = None →
  run st (assigns kvs)
  = Ok (mkState (counter st)
          (foldl (λ d kv, set_key kv.1 kv.2 d) (root st) kvs) (instances st) None).
Proof.
  revert st. induction kvs as [|[k v] kvs IH]; intros [c r i cur] Hcur;
    simpl in *; subst cur; [done|].
  unfold mbind, result_bind. simpl. by rewrite IH.
Qed.

(** Parameters inside a section go to the innermost table of the instance
    that is open, and nowhere else. *)
Lemma run_assigns_section kvs st which path (g : dict → dict) l0 :
  current st = Some (which, path) →
  instances st = alter_instance which (update_path path g) l0 →
  run st (assigns kvs)
  = Ok (mkState (counter st) (root st)
          (alter_instance which (update_path path (λ d, sets kvs (g d))) l0)
          (current st)).
Proof.
  revert st g. induction kvs as [|[k v] kvs IH]; intros [c r i cur] g Hcur Hinst;
    simpl in *; subst cur i; [done|].
  unfold mbind, result_bind. simpl.
  rewrite (IH _ (set_key k (Leaf v) ∘ g)); simpl.
  - done.
  - done.
  - rewrite alter_instance_compose. apply alter_instance_ext.
    intros d. apply update_path_compose.
Qed.

Lemma wf_init : wf init.
Proof. intros which Hin. simpl in Hin. by apply not_elem_of_nil in Hin. Qed.

Lemma wf_step st l st' : wf st → step st l = Ok st' → wf st'.
Proof.
  intros Hwf. destruct l as [name|name subs|key v]; simpl.
  - intros [= <-] which. simpl. rewrite fmap_app, elem_of_app. simpl.
    intros [Hin|Hin].
    + destruct (decide (name = which.1)) as [->|Hne].
      * rewrite lookup_insert_eq. by eexists.
      * rewrite lookup_insert_ne by done. by apply Hwf.
    + apply list_elem_of_singleton in Hin as ->. simpl.
      rewrite lookup_insert_eq. by eexists.
  - destruct (counter st !! name) as [count|] eqn:Hcount; [|done].
    intros [= <-] which. simpl. rewrite alter_instance_fst. apply Hwf.
  - destruct (current st) as [[which' path]|]; intros [= <-] which; simpl.
    + rewrite alter_instance_fst. apply Hwf.
    + apply Hwf.
Qed.

Lemma wf_run ls st st' : wf st → run st ls = Ok st' → wf st'.
Proof.
  revert st. induction ls as [|l ls IH]; intros st Hwf; simpl.
  - by intros [= <-].
  - unfold mbind, result_bind. destruct (step st l) as [st1|e] eqn:Hstep; [|done].
    apply IH. by eapply wf_step.
Qed.

(** A name that the counter does not know has no instance. *)
Lemma wf_fresh st h (i : nat) :
  wf st → counter st !! h = None → (h, i) ∉ (fst <$> instances st).
Proof.
  intros Hwf Hnone Hin. apply Hwf in Hin. simpl in Hin.
  rewrite Hnone in Hin. by destruct Hin.
Qed.

(** A new declaration leaves the keys of the other names as they were. *)
Lemma instance_key_other (c : gmap string nat) h (n : nat) which :
  which.1 ≠ h → instance_key (<[h := n]> c) which = instance_key c which.
Proof. intros Hne. unfold instance_key. by rewrite lookup_insert_ne. Qed.

Lemma render_instances_other (c : gmap string nat) h (n : nat) (l : list (instance * dict)) :
  (∀ i, (h, i) ∉ (fst <$> l)) →
  (λ entry, (instance_key (<[h := n]> c) entry.1, Table entry.2)) <$> l
  = (λ entry, (instance_key c entry.1, Table entry.2)) <$> l.
Proof.
  intros Hfresh. apply list_fmap_ext. intros i [[name rank] d] Hi. simpl.
  rewrite instance_key_other; [done|]. simpl. intros ->.
  apply (Hfresh rank). apply list_elem_of_fmap. exists ((h, rank), d).
  split; [done|]. by eapply list_elem_of_lookup_2.
Qed.

(** *** Numbering of the instances *)

Abbreviation named h := (λ which : instance, which.1 = h).

Lemma declarations_cons h l ls :
  declarations h (l :: ls) = ((if declares h l then 1 else 0) + declarations h ls)%nat.
Proof.
  unfold declarations. rewrite filter_cons.
  by destruct (declares h l).
Qed.

(** What one line does to the counter of [h] and to its instances. *)
Lemma step_counter st l st' h :
  step st l = Ok st' →
  default 0%nat (counter st' !! h)
  = (default 0%nat (counter st !! h) + (if declares h l then 1 else 0))%nat
  ∧ filter (named h) (fst <$> instances st')
    = filter (named h) (fst <$> instances st)
      ++ (if declares h l then [(h, S (default 0%nat (counter st !! h)))] else []).
Proof.
  destruct l as [name|name subs|key v]; simpl.
  - intros [= <-]. simpl. rewrite fmap_app, filter_app. simpl.
    case_bool_decide as Hname.
    + subst name. rewrite lookup_insert_eq. simpl. split; [lia|].
      by rewrite filter_cons_True.
    + rewrite lookup_insert_ne by done. split; [lia|].
      by rewrite filter_cons_False.
  - destruct (counter st !! name) as [count|]; [|done].
    intros [= <-]. simpl. rewrite alter_instance_fst, app_nil_r. split; [lia|done].
  - destruct (current st) as [[which path]|]; intros [= <-]; simpl;
      rewrite ?alter_instance_fst, app_nil_r; (split; [lia|done]).
Qed.

Lemma run_counter ls st st' h :
  run st ls = Ok st' →
  default 0%nat (counter st' !! h)
  = (default 0%nat (counter st !! h) + declarations h ls)%nat
  ∧ filter (named h) (fst <$> instances st')
    = filter (named h) (fst <$> instances st)
      ++ ((λ i, (h, i)) <$> seq (S (default 0%nat (counter st !! h))) (declarations h ls)).
Proof.
  revert st. induction ls as [|l ls IH]; intros st; simpl.
  - intros [= <-]. unfold declarations. simpl. rewrite app_nil_r. split; [lia|done].
  - unfold mbind, result_bind.
    destruct (step st l) as [st1|e] eqn:Hstep; [|done]. intros Hrun.
    destruct (step_counter _ _ _ h Hstep) as [Hc1 Hi1].
    destruct (IH _ Hrun) as [Hc Hi].
    rewrite declarations_cons. split; [lia|].
    rewrite Hi, Hi1, Hc1, <- app_assoc. f_equal.
    destruct (declares h l); simpl.
    + do 2 f_equal. f_equal. lia.
    + do 2 f_equal. lia.
Qed.

(** The section that is open is the last instance of its name. *)
Definition open_last (st : state) : Prop :=
  ∀ which path, current st = Some (which, path) → counter st !! which.1 = Some which.2.

Lemma open_last_init : open_last init.
Proof. by intros which path. Qed.

Lemma open_last_step st l st' : open_last st → step st l = Ok st' → open_last st'.
Proof.
  intros Hopen. destruct l as [name|name subs|key v]; simpl.
  - intros [= <-] which path [= <-]. simpl. by rewrite lookup_insert_eq.
  - destruct (counter st !! name) as [count|] eqn:Hcount; [|done].
    by intros [= <-] which path [= <-].
  - destruct (current st) as [[which' path']|] eqn:Hcur; intros [= <-]; [|done].
    intros which path [= <- <-]. simpl. by apply (Hopen _ path').
Qed.

Lemma open_last_run_from st ls st' : open_last st → run st ls = Ok st' → open_last st'.
Proof.
  revert st. induction ls as [|l ls IH]; intros st Hopen; simpl.
  - by intros [= <-].
  - unfold mbind, result_bind. destruct (step st l) as [st1|e] eqn:Hstep; [|done].
    apply IH. by eapply open_last_step.
Qed.

Lemma get_alter_instance_other which f (k : instance) l :
  k ≠ which → get_key k (alter_instance which f l) = get_key k l.
Proof.
  intros Hne. induction l as [|[w d] l IH]; simpl; [done|].
  destruct (decide (w = which)) as [->|Hw]; simpl.
  - by rewrite !decide_False by done.
  - by rewrite IH.
Qed.

Lemma get_key_snoc_other {K V} `{EqDecision K} (k k' : K) (v : V) l :
  k ≠ k' → get_key k (l ++ [(k', v)]) = get_key k l.
Proof.
  intros Hne. induction l as [|[k0 v0] l IH]; simpl.
  - by rewrite decide_False.
  - by rewrite IH.
Qed.

Lemma get_key_snoc_fresh {K V} `{EqDecision K} (k : K) (v : V) l :
  k ∉ (fst <$> l) → get_key k (l ++ [(k, v)]) = Some v.
Proof.
  induction l as [|[k0 v0] l IH]; simpl; intros Hfresh.
  - by rewrite decide_True.
  - apply not_elem_of_cons in Hfresh as [Hne Hfresh].
    rewrite decide_False by done. by apply IH.
Qed.

(** An instance of a rank below the counter of its name is closed: no line
    changes it any more. *)
Lemma step_closed st l st' h (i : nat) :
  open_last st → step st l = Ok st' →
  (i < default 0%nat (counter st !! h))%nat →
  get_key (h, i) (instances st') = get_key (h, i) (instances st)
  ∧ (i < default 0%nat (counter st' !! h))%nat.
Proof.
  intros Hopen Hstep Hi.
  pose proof (step_counter _ _ _ h Hstep) as [Hcount _].
  split; [|lia]. clear Hcount.
  destruct l as [name|name subs|key v]; simpl in Hstep.
  - injection Hstep as <-. simpl. apply get_key_snoc_other.
    intros [= -> ->]. lia.
  - destruct (counter st !! name) as [count|] eqn:Hcount; [|done].
    injection Hstep as <-. simpl. apply get_alter_instance_other.
    intros [= -> ->]. rewrite Hcount in Hi. simpl in Hi. lia.
  - destruct (current st) as [[[name rank] path]|] eqn:Hcur; injection Hstep as <-;
      simpl; [|done].
    apply get_alter_instance_other. intros [= -> ->].
    pose proof (Hopen _ _ Hcur) as Hlast. simpl in Hlast.
    rewrite Hlast in Hi. simpl in Hi. lia.
Qed.

Lemma run_closed ls st st' h (i : nat) :
  open_last st → run st ls = Ok st' →
  (i < default 0%nat (counter st !! h))%nat →
  get_key (h, i) (instances st') = get_key (h, i) (instances st).
Proof.
  revert st. induction ls as [|l ls IH]; intros st Hopen; simpl.
  - by intros [= <-].
  - unfold mbind, result_bind. destruct (step st l) as [st1|e] eqn:Hstep; [|done].
    intros Hrun Hi. destruct (step_closed _ _ _ h i Hopen Hstep Hi) as [Hsame Hi1].
    rewrite <- Hsame. apply IH; [by eapply open_last_step|done..].
Qed.

(** *** A text put together from texts *)

Lemma split_on_nonempty (sep : ascii) (s : string) : split_on sep s ≠ [].
Proof.
  destruct s as [|c s]; simpl; [done|].
  case_decide; [done|]. by destruct (split_on sep s).
Qed.

(** The lines of two texts joined by a line break are the lines of the one
    followed by the lines of the other. *)
Lemma split_on_app (sep : ascii) (a b : string) :
  split_on sep (a +:+ String sep b) = split_on sep a ++ split_on sep b.
Proof.
  induction a as [|c a IH].
  - change ("" +:+ String sep b) with (String sep b). simpl. by rewrite decide_True.
  - rewrite Libhpc.append_cons. simpl. case_decide; [by rewrite IH|].
    rewrite IH. pose proof (split_on_nonempty sep a) as Hne.
    by destruct (split_on sep a).
Qed.

Lemma logical_lines_app (la lb : list string) (pending : option string)
    (ra : list string) :
  logical_lines pending la = Ok ra →
  logical_lines pending (la ++ lb) = (rb ← logical_lines None lb; Ok (ra ++ rb)).
Proof.
  revert pending ra. induction la as [|l la IH]; intros pending ra; simpl.
  - destruct pending; [done|]. intros [= <-].
    unfold mbind, result_bind. by destruct (logical_lines None lb).
  - destruct pending as [open|].
    + destruct (contains "]" (trim (strip_comment false l))).
      * unfold mbind at 1, result_bind at 1.
        destruct (logical_lines None la) as [rest|e] eqn:Hrest; [|done].
        intros [= <-]. rewrite (IH None rest Hrest).
        unfold mbind, result_bind. by destruct (logical_lines None lb).
      * apply IH.
    + case_bool_decide; [apply IH|].
      destruct (opens_list (trim (strip_comment false l))); [apply IH|].
      unfold mbind at 1, result_bind at 1.
      destruct (logical_lines None la) as [rest|e] eqn:Hrest; [|done].
      intros [= <-]. rewrite (IH None rest Hrest).
      unfold mbind, result_bind. by destruct (logical_lines None lb).
Qed.

Lemma collect_app {A B} (f : A → result B) (la lb : list A) (ya yb : list B) :
  collect f la = Ok ya → collect f lb = Ok yb → collect f (la ++ lb) = Ok (ya ++ yb).
Proof.
  revert ya. induction la as [|x la IH]; intros ya; simpl.
  - by intros [= <-].
  - unfold mbind, result_bind. destruct (f x) as [y|e]; [|done].
    destruct (collect f la) as [ys|e] eqn:Hla; [|done].
    intros [= <-] Hlb. by rewrite (IH ys eq_refl Hlb).
Qed.

(** Two texts that the scanner accepts, one after the other on lines of
    their own, give the lines of the one followed by the lines of the
    other. *)
Lemma lex_app (t1 t2 : string) (l1 l2 : list line) :
  lex t1 = Ok l1 → lex t2 = Ok l2 → lex (t1 +:+ String newline t2) = Ok (l1 ++ l2).
Proof.
  unfold lex. rewrite split_on_app. unfold mbind, result_bind.
  destruct (logical_lines None (split_on newline t1)) as [ls1|e] eqn:H1; [|done].
  destruct (logical_lines None (split_on newline t2)) as [ls2|e] eqn:H2; [|done].
  intros Hc1 Hc2. rewrite (logical_lines_app _ _ _ _ H1), H2.
  unfold mbind, result_bind. by apply collect_app.
Qed.

(** *** One section, line by line *)

(** The lines that a section of [h] is made of: parameters, and
    sub-sections of [h]. *)
Definition in_section (h : string) (l : line) : bool :=
  match l with
  | MainHeader _ => false
  | SubHeader name _ => bool_decide (name = h)
  | Assign _ _ => true
  end.

(** What the lines of a section make of its table, and the sub-section
    that is open after them; [path] is the sub-section open before them. *)
Fixpoint fill (body : list line) (path : list string) (d : dict) : dict :=
  match body with
  | [] => d
  | Assign key v :: rest => fill rest path (update_path path (set_key key (Leaf v)) d)
  | SubHeader _ subs :: rest => fill rest subs (update_path subs id d)
  | MainHeader _ :: rest => fill rest path d
  end.
Fixpoint open_path (body : list line) (path : list string) : list string :=
  match body with
  | [] => path
  | SubHeader _ subs :: rest => open_path rest subs
  | _ :: rest => open_path rest path
  end.

(** The lines of a section change the table of the instance that is open,
    the last of its name, and nothing else. *)
Lemma run_section (body : list line) (st : state) (h : string) (c : nat)
    (path : list string) (d : dict) (l0 : list (instance * dict)) :
  forallb (in_section h) body = true →
  counter st !! h = Some c →
  current st = Some ((h, c), path) →
  instances st = l0 ++ [((h, c), d)] →
  (h, c) ∉ (fst <$> l0) →
  run st body
  = Ok (mkState (counter st) (root st) (l0 ++ [((h, c), fill body path d)])
          (Some ((h, c), open_path body path))).
Proof.
  revert st path d. induction body as [|l body IH];
    intros [cnt r i cur] path d Hbody Hcount Hcur Hinst Hfresh; simpl in *; subst.
  - done.
  - apply andb_prop in Hbody as [Hl Hbody].
    destruct l as [name|name subs|key v]; simpl in *; [done|..].
    + apply bool_decide_eq_true in Hl as ->. rewrite Hcount.
      unfold mbind, result_bind. rewrite alter_instance_last by done.
      by apply IH.
    + unfold mbind, result_bind. rewrite alter_instance_last by done.
      by apply IH.
Qed.

Lemma fill_assigns_top (kvs : list (string * value)) (rest : list line) (d : dict) :
  fill (assigns kvs ++ rest) [] d = fill rest [] (sets kvs d).
Proof.
  revert d. induction kvs as [|[k v] kvs IH]; intros d; simpl; [done|]. by rewrite IH.
Qed.

Lemma fill_assigns_open (kvs : list (string * value)) (path : list string)
    (g : dict → dict) (d : dict) :
  fill (assigns kvs) path (update_path path g d)
  = update_path path (λ x, sets kvs (g x)) d.
Proof.
  revert g. induction kvs as [|[k v] kvs IH]; intros g; simpl; [done|].
  by rewrite update_path_compose, IH.
Qed.

(** C6. Take any text that loads, with any sections in it, and write after
    it a declaration of a top-level section [h] followed by the lines of
    that section: parameters, sub-sections of [h] and their parameters. If
    [h] was declared [n] times before, the text loads, and its tree is the
    one of the first text with one more instance, of rank [n + 1], placed
    last: it holds what the lines after its declaration make of an empty
    table and nothing of what was there before, and the instances that were
    there hold what they held, whatever the keys of the one and of the
    others. A sub-section that comes after the declaration is in the new
    instance, also when an earlier instance has a sub-section of the same
    name that was open. With [n >= 1] the keys of the instances of [h] are
    [h.1], ..., [h.(n+1)], in this order. Whatever lines come later, the
    instances of rank up to [n] stay as they are. *)
Theorem repeated_section_instances (text_before header_text body_text : string)
    (before body : list line) (st : state) (h : string) :
  lex text_before = Ok before →
  run init before = Ok st →
  lex header_text = Ok [MainHeader h] →
  lex body_text = Ok body →
  forallb (in_section h) body = true →
  let n := declarations h before in
  let text :=
    text_before +:+ String newline (header_text +:+ String newline body_text) in
  let st' :=
    mkState (<[h := S n]> (counter st)) (root st)
      (instances st ++ [((h, S n), fill body [] [])])
      (Some ((h, S n), open_path body [])) in
  lex text = Ok (before ++ MainHeader h :: body)
  ∧ run init (before ++ MainHeader h :: body) = Ok st'
  ∧ loads text = Ok (render st')
  ∧ (∀ second subs nested,
        body = assigns second ++ [SubHeader h subs] ++ assigns nested →
        fill body [] [] = update_path subs (sets nested) (sets second []))
  ∧ ((1 ≤ n)%nat →
       instance_key (counter st') <$> filter (named h) (fst <$> instances st')
       = (λ i, h +:+ "." +:+ str_int (Z.of_nat i)) <$> seq 1 (S n))
  ∧ (∀ after st'',
        run st' after = Ok st'' →
        ∀ i, (i ≤ n)%nat →
             get_key (h, i) (instances st'') = get_key (h, i) (instances st)).
Proof.
  intros Hlex Hrun Hheader Hbody Hsection n text st'.
  destruct (run_counter _ _ _ h Hrun) as [Hcount Hinst].
  simpl in Hcount, Hinst. rewrite lookup_empty in Hcount, Hinst.
  simpl in Hcount, Hinst. fold n in Hcount, Hinst.
  assert (Hwf : wf st) by (eapply wf_run; [apply wf_init|done]).
  assert (Hfresh : (h, S n) ∉ (fst <$> instances st)).
  { intros Hin.
    assert (Hnamed : (h, S n) ∈ filter (named h) (fst <$> instances st))
      by (by apply list_elem_of_filter).
    rewrite Hinst in Hnamed. apply list_elem_of_fmap in Hnamed as (i & [= Heq] & Hi).
    apply elem_of_seq in Hi. lia. }
  assert (Hlines : lex text = Ok (before ++ MainHeader h :: body)).
  { unfold text. apply lex_app; [done|].
    by apply (lex_app header_text body_text [MainHeader h] body). }
  assert (Hstate : run init (before ++ MainHeader h :: body) = Ok st').
  { rewrite run_app, Hrun. unfold mbind, result_bind. simpl run. rewrite Hcount.
    rewrite (run_section body _ h (S n) [] [] (instances st)); try done.
    simpl. by rewrite lookup_insert_eq. }
  split; [done|]. split; [done|]. split.
  { unfold loads. rewrite Hlines. unfold mbind, result_bind, build.
    rewrite Hstate. done. }
  split.
  { intros second subs nested ->. rewrite fill_assigns_top. simpl.
    apply (fill_assigns_open nested subs id). }
  split.
  { intros Hn. unfold st'. cbn [counter instances].
    rewrite (seq_S n 1), (fmap_app _ (seq 1 n)).
    rewrite fmap_app, filter_app, Hinst. simpl.
    rewrite filter_cons_True by done. rewrite filter_nil.
    rewrite fmap_app, <- list_fmap_compose. simpl.
    assert (Hkey : ∀ i, instance_key (<[h := S n]> (counter st)) (h, i)
                        = h +:+ "." +:+ str_int (Z.of_nat i)).
    { intros i. unfold instance_key. simpl. rewrite lookup_insert_eq.
      rewrite decide_False; [done|]. intros [= Hone]. lia. }
    rewrite Hkey. f_equal. apply list_fmap_ext. intros k i _. apply Hkey. }
  intros after st'' Hafter i Hi.
  assert (Hopen : open_last st').
  { eapply open_last_run_from; [apply open_last_init|exact Hstate]. }
  rewrite (run_closed after st' st'' h i Hopen Hafter).
  - unfold st'. cbn [instances]. apply get_key_snoc_other. intros [= ->]. lia.
  - unfold st'. cbn [counter]. rewrite lookup_insert_eq. simpl. lia.
Qed.

Definition sample_before : list line := [Assign "n" (VInt 3); MainHeader "g"].
Definition sample_state : state :=
  mkState (<["g" := 1%nat]> ∅) [("n", VInt 3)] [(("g", 1%nat), [])]
    (Some (("g", 1%nat), [])).

(** A text in the manner of the first example of the tests: another
    section stands between the two declarations of [h], the first instance
    has a sub-section, which is open when [h] is declared again, and both
    instances set the same key. *)
Definition sample_text_before : string :=
"top = 1
[h]
a = 1
[g]
b = 2
[h.weights]
val = 1".

Definition sample_lines_before : list line :=
  [Assign "top" (VInt 1); MainHeader "h"; Assign "a" (VInt 1);
   MainHeader "g"; Assign "b" (VInt 2);
   SubHeader "h" ["weights"]; Assign "val" (VInt 1)].

Definition sample_state_before : state :=
  mkState (<["g" := 1%nat]> (<["h" := 1%nat]> ∅)) [("top", VInt 1)]
    [(("h", 1%nat), [("a", Leaf (VInt 1)); ("weights", Table [("val", Leaf (VInt 1))])]);
     (("g", 1%nat), [("b", Leaf (VInt 2))])]
    (Some (("h", 1%nat), ["weights"])).

Definition sample_text_body : string :=
"a = 1
[h.weights]
other = 50".

Definition sample_lines_body : list line :=
  [Assign "a" (VInt 1); SubHeader "h" ["weights"]; Assign "other" (VInt 50)].

Example loads_sample_text :
  loads (sample_text_before +:+ String newline
           ("[h] # again" +:+ String newline sample_text_body))
  = Ok [("top", Leaf (VInt 1));
        ("h.1", Table [("a", Leaf (VInt 1)); ("weights", Table [("val", Leaf (VInt 1))])]);
        ("g", Table [("b", Leaf (VInt 2))]);
        ("h.2", Table [("a", Leaf (VInt 1));
                       ("weights", Table [("other", Leaf (VInt 50))])])].
Proof. vm_compute. reflexivity. Qed.

Lemma repeated_section_instances_witness :
  lex sample_text_before = Ok sample_lines_before
  ∧ run init sample_lines_before = Ok sample_state_before
  ∧ lex "[h] # again" = Ok [MainHeader "h"]
  ∧ lex sample_text_body = Ok sample_lines_body
  ∧ forallb (in_section "h") sample_lines_body = true
  ∧ let n := declarations "h" sample_lines_before in
    let text :=
      sample_text_before +:+ String newline
        ("[h] # again" +:+ String newline sample_text_body) in
    let st' :=
      mkState (<["h" := S n]> (counter sample_state_before)) (root sample_state_before)
        (instances sample_state_before ++ [(("h", S n), fill sample_lines_body [] [])])
        (Some (("h", S n), open_path sample_lines_body [])) in
    lex text = Ok (sample_lines_before ++ MainHeader "h" :: sample_lines_body)
    ∧ run init (sample_lines_before ++ MainHeader "h" :: sample_lines_body) = Ok st'
    ∧ loads text = Ok (render st')
    ∧ (∀ second subs nested,
          sample_lines_body = assigns second ++ [SubHeader "h" subs] ++ assigns nested →
          fill sample_lines_body [] [] = update_path subs (sets nested) (sets second []))
    ∧ ((1 ≤ n)%nat →
         instance_key (counter st') <$> filter (named "h") (fst <$> instances st')
         = (λ i, "h" +:+ "." +:+ str_int (Z.of_nat i)) <$> seq 1 (S n))
    ∧ (∀ after st'',
          run st' after = Ok st'' →
          ∀ i, (i ≤ n)%nat →
               get_key ("h", i) (instances st'')
               = get_key ("h", i) (instances sample_state_before)).
Proof.
  assert (Hlex : lex sample_text_before = Ok sample_lines_before)
    by (vm_compute; reflexivity).
  assert (Hrun : run init sample_lines_before = Ok sample_state_before) by reflexivity.
  assert (Hheader : lex "[h] # again" = Ok [MainHeader "h"]) by (vm_compute; reflexivity).
  assert (Hbody : lex sample_text_body = Ok sample_lines_body)
    by (vm_compute; reflexivity).
  assert (Hsection : forallb (in_section "h") sample_lines_body = true) by reflexivity.
  split; [exact Hlex|]. split; [exact Hrun|]. split; [exact Hheader|].
  split; [exact Hbody|]. split; [exact Hsection|].
  exact (repeated_section_instances sample_text_before "[h] # again" sample_text_body
           sample_lines_before sample_lines_body sample_state_before "h"
           Hlex Hrun Hheader Hbody Hsection).
Defined.

(** C7 as the specification words it fails on the tree the tests expect.
    The third example of the tests declares [header] once, and the tree has
    the key [header], not [header.1]. *)
Lemma single_declaration_has_no_suffix :
  lex _config_example_3
  = Ok [Assign "val" (VInt 1); MainHeader "header"; SubHeader "header" ["d1"];
        Assign "val2" (VInt 10); Assign "val3" (VInt 20)]
  ∧ loads _config_example_3 = Ok _config_example_dict_3
  ∧ get_key "header.1" _config_example_dict_3 = None
  ∧ get_key "header" _config_example_dict_3
    = Some (Table [("d1", Table [("val2", Leaf (VInt 10)); ("val3", Leaf (VInt 20))])]).
Proof. repeat split; reflexivity. Qed.

(** C7, as the loader has it. A declaration [[h]] sets the counter of [h] to
    one more than it was, 1 when [h] was not declared before, and starts a
    new, empty instance of that rank, which becomes the open section. In a
    configuration that loads, the instances of [h] are those of ranks 1 to
    the number of its declarations, in that order; in the tree a name
    declared once is keyed by the bare name, and a name declared several
    times by [h.1], [h.2] and so on. *)
Theorem declaration_instances (ls : list line) (st : state) (h : string) :
  run init ls = Ok st →
  (∀ st0 : state,
      step st0 (MainHeader h)
      = Ok (mkState (<[h := S (default 0%nat (counter st0 !! h))]> (counter st0))
              (root st0)
              (instances st0 ++ [((h, S (default 0%nat (counter st0 !! h))), [])])
              (Some ((h, S (default 0%nat (counter st0 !! h))), []))))
  ∧ filter (named h) (fst <$> instances st)
    = (λ i, (h, i)) <$> seq 1 (declarations h ls)
  ∧ instance_key (counter st) <$> filter (named h) (fst <$> instances st)
    = if decide (declarations h ls = 1%nat) then [h]
      else (λ i, h +:+ "." +:+ str_int (Z.of_nat i)) <$> seq 1 (declarations h ls).
Proof.
  intros Hrun. split; [reflexivity|].
  destruct (run_counter _ _ _ h Hrun) as [Hcount Hinst].
  simpl in Hcount, Hinst. rewrite lookup_empty in Hcount, Hinst. simpl in Hcount, Hinst.
  split; [done|]. rewrite Hinst, <- list_fmap_compose.
  case_decide as Hone.
  - rewrite Hone in *. simpl. unfold instance_key. simpl.
    destruct (counter st !! h) as [c|] eqn:Hc; simpl in Hcount; [|done].
    subst c. by rewrite decide_True.
  - apply list_fmap_ext. intros i rank _. simpl. unfold instance_key. simpl.
    rewrite decide_False; [done|]. intros Hc. rewrite Hc in Hcount. simpl in Hcount.
    congruence.
Qed.

Lemma declaration_instances_witness :
  run init sample_before = Ok sample_state
  ∧ (∀ st0 : state,
        step st0 (MainHeader "g")
        = Ok (mkState (<["g" := S (default 0%nat (counter st0 !! "g"))]> (counter st0))
                (root st0)
                (instances st0 ++ [(("g", S (default 0%nat (counter st0 !! "g"))), [])])
                (Some (("g", S (default 0%nat (counter st0 !! "g"))), []))))
  ∧ filter (named "g") (fst <$> instances sample_state)
    = (λ i, ("g", i)) <$> seq 1 (declarations "g" sample_before)
  ∧ instance_key (counter sample_state) <$> filter (named "g") (fst <$> instances sample_state)
    = if decide (declarations "g" sample_before = 1%nat) then ["g"]
      else (λ i, "g" +:+ "." +:+ str_int (Z.of_nat i))
             <$> seq 1 (declarations "g" sample_before).
Proof.
  assert (Hrun : run init sample_before = Ok sample_state) by reflexivity.
  split; [exact Hrun|].
  exact (declaration_instances sample_before sample_state "g" Hrun).
Defined.

End ConfigReader.

(** ** haddock/gear/preprocessing.py: the steps that work line by line *)

Module Preprocessing.

(** *** Strings of a PDB file, as Python slices and tests them *)

(** [s[n:]] and [s[:n]]. *)
Fixpoint drop_chars (n : nat) (s : string) : string :=
  match n, s with
  | S n', String _ s' => drop_chars n' s'
  | _, _ => s
  end.
Fixpoint take_chars (n : nat) (s : string) : string :=
  match n, s with
  | S n', String c s' => String c (take_chars n' s')
  | _, _ => EmptyString
  end.

(** [s[slc]] for [slc = slice(start, stop)] with bounds that are not
    negative. *)
Definition slice (s : string) (slc : nat * nat) : string :=
  take_chars (slc.2 - slc.1) (drop_chars slc.1 s).

(** [s.startswith(prefix)], and the same for a tuple of prefixes. *)
Fixpoint startswith (s prefix : string) {struct prefix} : bool :=
  match prefix, s with
  | EmptyString, _ => true
  | String a prefix', String b s' => bool_decide (a = b) && startswith s' prefix'
  | String _ _, EmptyString => false
  end.
Definition startswith_any (s : string) (prefixes : list string) : bool :=
  existsb (startswith s) prefixes.

(** [s.strip()]: the white space of ASCII text is dropped at both ends. *)
Definition is_space (c : ascii) : bool :=
  let n := nat_of_ascii c in
  ((9 <=? n)%nat && (n <=? 13)%nat) || ((28 <=? n)%nat && (n <=? 32)%nat).
Fixpoint lstrip (s : string) : string :=
  match s with
  | String c s' => if is_space c then lstrip s' else s
  | EmptyString => EmptyString
  end.
Definition strip (s : string) : string := String.rev (lstrip (String.rev (lstrip s))).

Lemma drop_chars_empty n : drop_chars n "" = "".
Proof. by destruct n. Qed.

Lemma drop_chars_drop_chars a b s : drop_chars a (drop_chars b s) = drop_chars (b + a) s.
Proof.
  revert s. induction b as [|b IH]; intros s; simpl; [done|].
  destruct s as [|c s]; [by rewrite drop_chars_empty|]. apply IH.
Qed.

Lemma drop_chars_app s1 s2 n :
  (String.length s1 ≤ n)%nat →
  drop_chars n (s1 +:+ s2) = drop_chars (n - String.length s1) s2.
Proof.
  revert n. induction s1 as [|c s1 IH]; intros n Hn; simpl in *.
  - by rewrite Nat.sub_0_r.
  - destruct n as [|n]; [lia|]. simpl. apply IH. lia.
Qed.

Lemma startswith_app s1 s2 prefix :
  (String.length prefix ≤ String.length s1)%nat →
  startswith (s1 +:+ s2) prefix = startswith s1 prefix.
Proof.
  revert s1. induction prefix as [|a prefix IH]; intros s1 Hlen; [done|].
  destruct s1 as [|b s1]; simpl in *; [lia|]. rewrite IH by lia. done.
Qed.

Section Records.

(** [haddock.libs.libpdb.slc_resname]: the columns of the residue name. *)
Variable slc_resname : nat * nat.

(** The residue name of a line, as every step reads it. *)
Definition resname (line : string) : string := strip (slice line slc_resname).

(** [convert_record]: the body of the generator, line by line. *)
Fixpoint convert_record (fhandler : list string) (record other_record : string)
    (must_be : gset string) : list string :=
  match fhandler with
  | [] => []
  | line :: rest =>
      if startswith line record then
        let resname := strip (slice line slc_resname) in
        if decide (resname ∈ must_be)
        then (other_record +:+ drop_chars 6 line)
               :: convert_record rest record other_record must_be
        else line :: convert_record rest record other_record must_be
      else line :: convert_record rest record other_record must_be
  end.

(** The two conversions of [process_pdbs]; [must_be] may be given again, as
    [partial] allows. *)
Definition convert_ATOM_to_HETATM (must_be : gset string) (fhandler : list string)
    : list string :=
  convert_record fhandler "ATOM" "HETATM" must_be.
Definition convert_HETATM_to_ATOM (must_be : gset string) (fhandler : list string)
    : list string :=
  convert_record fhandler "HETATM" "ATOM  " must_be.

(** [replace_HETATM_to_ATOM]. *)
Fixpoint replace_HETATM_to_ATOM (fhandler : list string) (res : string) : list string :=
  match fhandler with
  | [] => []
  | line :: rest =>
      if startswith line "HETATM" && bool_decide (strip (slice line slc_resname) = res)
      then ("ATOM  " +:+ drop_chars 6 line) :: replace_HETATM_to_ATOM rest res
      else line :: replace_HETATM_to_ATOM rest res
  end.

(** [remove_unsupported_molecules]: [None] or an empty set stands for the
    empty set; the residues found and refused are gathered and dropped. *)
Fixpoint remove_loop (lines : list string) (allowed : gset string)
    (line_startswith : list string) (not_allowed_found : gset string) : list string :=
  match lines with
  | [] => []
  | line :: rest =>
      if startswith_any line line_startswith then
        let residue := strip (slice line slc_resname) in
        if decide (residue ∈ allowed)
        then line :: remove_loop rest allowed line_startswith not_allowed_found
        else remove_loop rest allowed line_startswith ({[residue]} ∪ not_allowed_found)
      else line :: remove_loop rest allowed line_startswith not_allowed_found
  end.

Definition remove_unsupported_molecules (lines : list string)
    (haddock3_defined user_defined : option (gset string))
    (line_startswith : list string) : list string :=
  let user_defined := default ∅ user_defined in
  let haddock3_defined := default ∅ haddock3_defined in
  let allowed := haddock3_defined ∪ user_defined in
  remove_loop lines allowed line_startswith ∅.

(** One line through [convert_record]. *)
Definition convert_line (record other_record : string) (must_be : gset string)
    (line : string) : string :=
  if startswith line record && bool_decide (resname line ∈ must_be)
  then other_record +:+ drop_chars 6 line else line.

Lemma convert_record_fmap fhandler record other_record must_be :
  convert_record fhandler record other_record must_be
  = convert_line record other_record must_be <$> fhandler.
Proof.
  induction fhandler as [|line rest IH]; simpl; [done|]. unfold convert_line at 1.
  unfold resname. destruct (startswith line record); simpl; [|by rewrite IH].
  case_decide.
  - rewrite bool_decide_eq_true_2 by done. by rewrite IH.
  - rewrite bool_decide_eq_false_2 by done. by rewrite IH.
Qed.

(** A line that was converted does not match the record any more. *)
Lemma convert_line_idempotent record other_record must_be line :
  (String.length record ≤ String.length other_record)%nat →
  startswith other_record record = false →
  convert_line record other_record must_be
    (convert_line record other_record must_be line)
  = convert_line record other_record must_be line.
Proof.
  intros Hlen Hother. unfold convert_line at 2.
  destruct (startswith line record && bool_decide (resname line ∈ must_be)) eqn:Hline.
  - unfold convert_line. rewrite Hline. by rewrite startswith_app, Hother.
  - done.
Qed.

(** X15. [convert_record] keeps the number of lines; with a new record name
    of six characters it leaves every line as it was from column 6 on; and
    when the new record name is at least as long as the old one and does
    not start with it, as in both conversions of [process_pdbs], converting
    twice is converting once. *)
Theorem convert_record_idempotent (fhandler : list string)
    (record other_record : string) (must_be : gset string) :
  (String.length record ≤ String.length other_record)%nat →
  startswith other_record record = false →
  String.length other_record = 6%nat →
  length (convert_record fhandler record other_record must_be) = length fhandler
  ∧ drop_chars 6 <$> convert_record fhandler record other_record must_be
    = drop_chars 6 <$> fhandler
  ∧ convert_record (convert_record fhandler record other_record must_be)
      record other_record must_be
    = convert_record fhandler record other_record must_be.
Proof.
  intros Hlen Hother Hsix. rewrite !convert_record_fmap. split; [|split].
  - by rewrite length_fmap.
  - rewrite <- list_fmap_compose. apply list_fmap_ext. intros i line _.
    unfold compose, convert_line.
    destruct (startswith line record && bool_decide (resname line ∈ must_be));
      [|done].
    rewrite drop_chars_app by lia. by rewrite Hsix, Nat.sub_diag.
  - rewrite <- list_fmap_compose. apply list_fmap_ext. intros i line _.
    unfold compose. by apply convert_line_idempotent.
Qed.

(** *** The two conversions together *)

Lemma slice_converted (other_record line : string) :
  String.length other_record = 6%nat → (6 ≤ slc_resname.1)%nat →
  resname (other_record +:+ drop_chars 6 line) = resname line.
Proof.
  intros Hsix Hcol. unfold resname, slice.
  rewrite drop_chars_app by lia. rewrite drop_chars_drop_chars, Hsix.
  do 3 f_equal. lia.
Qed.

Lemma startswith_ATOM_not_HETATM line :
  startswith line "ATOM" = true → startswith line "HETATM" = false.
Proof.
  destruct line as [|c line]; [done|]. simpl.
  intros [Hc _]%andb_prop. apply bool_decide_eq_true in Hc. by subst c.
Qed.

(** Both conversions on one line: an [ATOM] record of a residue that must
    be [HETATM] is renamed, a [HETATM] record of a residue that must be
    [ATOM] is renamed, and any other line is left alone. *)
Definition convert_both (hetatm atom : gset string) (line : string) : string :=
  if startswith line "ATOM" && bool_decide (resname line ∈ hetatm)
  then "HETATM" +:+ drop_chars 6 line
  else if startswith line "HETATM" && bool_decide (resname line ∈ atom)
  then "ATOM  " +:+ drop_chars 6 line
  else line.

(** X16. When no residue is both in the set that must be [HETATM] and in
    the set that must be [ATOM], and the residue name is read from columns
    past the record name, the two conversions of [process_pdbs] do not
    undo each other: in either order they rename the [ATOM] records of the
    first set and the [HETATM] records of the second, and nothing else. *)
Theorem conversions_commute (hetatm atom : gset string) (fhandler : list string) :
  hetatm ## atom →
  (6 ≤ slc_resname.1)%nat →
  convert_HETATM_to_ATOM atom (convert_ATOM_to_HETATM hetatm fhandler)
  = convert_both hetatm atom <$> fhandler
  ∧ convert_ATOM_to_HETATM hetatm (convert_HETATM_to_ATOM atom fhandler)
    = convert_both hetatm atom <$> fhandler.
Proof.
  intros Hdisjoint Hcol. unfold convert_HETATM_to_ATOM, convert_ATOM_to_HETATM.
  assert (Hself : startswith "HETATM" "HETATM" = true) by reflexivity.
  assert (Hself' : startswith "ATOM  " "ATOM" = true) by reflexivity.
  rewrite !convert_record_fmap, <- !list_fmap_compose.
  split; apply list_fmap_ext; intros i line _; unfold compose, convert_both.
  - unfold convert_line at 2.
    destruct (startswith line "ATOM") eqn:Hatom; cbn [andb].
    + case_bool_decide as Hin.
      * unfold convert_line. rewrite slice_converted by done.
        rewrite startswith_app by (cbn; lia). rewrite Hself. cbn [andb].
        rewrite bool_decide_eq_false_2; [done|]. intros Hin'.
        by apply (Hdisjoint (resname line)).
      * unfold convert_line.
        by rewrite (startswith_ATOM_not_HETATM _ Hatom).
    + done.
  - unfold convert_line at 2.
    destruct (startswith line "HETATM") eqn:Hhet; cbn [andb].
    + assert (Hatom : startswith line "ATOM" = false).
      { destruct (startswith line "ATOM") eqn:Hatom; [|done].
        by rewrite (startswith_ATOM_not_HETATM _ Hatom) in Hhet. }
      rewrite Hatom. cbn [andb]. case_bool_decide as Hin.
      * unfold convert_line. rewrite slice_converted by done.
        rewrite startswith_app by (cbn; lia). rewrite Hself'. cbn [andb].
        rewrite bool_decide_eq_false_2; [done|]. intros Hin'.
        by apply (Hdisjoint (resname line)).
      * unfold convert_line. by rewrite Hatom.
    + unfold convert_line.
      by destruct (startswith line "ATOM" && bool_decide (resname line ∈ hetatm)).
Qed.

(** *** The removal of unsupported molecules *)

(** A line is kept when it is no record of the kind looked at, or when its
    residue is allowed. *)
Definition kept (allowed : gset string) (line_startswith : list string)
    (line : string) : Prop :=
  startswith_any line line_startswith = false ∨ resname line ∈ allowed.

#[local] Instance kept_dec allowed line_startswith line :
  Decision (kept allowed line_startswith line).
Proof. unfold kept. apply _. Defined.

Lemma remove_loop_filter lines allowed line_startswith not_allowed_found :
  remove_loop lines allowed line_startswith not_allowed_found
  = filter (kept allowed line_startswith) lines.
Proof.
  revert not_allowed_found. induction lines as [|line rest IH]; intros found; [done|].
  simpl. fold (resname line).
  destruct (startswith_any line line_startswith) eqn:Hstart.
  - case_decide as Hin.
    + rewrite filter_cons_True by (by right). by rewrite IH.
    + rewrite filter_cons_False; [apply IH|]. intros [Hno|Hyes]; [congruence|done].
  - rewrite filter_cons_True by (by left). by rewrite IH.
Qed.

(** X17. [remove_unsupported_molecules] only removes lines: what it returns
    is the input without the records of the kind looked at whose residue is
    in neither set, the other lines in their order; a set left out counts
    as empty; and a second pass removes nothing more. *)
Theorem remove_unsupported_molecules_keeps (lines : list string)
    (haddock3_defined user_defined : option (gset string))
    (line_startswith : list string) :
  let allowed := default ∅ haddock3_defined ∪ default ∅ user_defined in
  let out :=
    remove_unsupported_molecules lines haddock3_defined user_defined line_startswith in
  out `sublist_of` lines
  ∧ (∀ line, line ∈ out ↔
             line ∈ lines
             ∧ (startswith_any line line_startswith = false ∨ resname line ∈ allowed))
  ∧ remove_unsupported_molecules out haddock3_defined user_defined line_startswith
    = out.
Proof.
  intros allowed out. unfold out, remove_unsupported_molecules.
  rewrite !remove_loop_filter. fold allowed. split; [|split].
  - apply sublist_filter.
  - intros line. rewrite list_elem_of_filter. unfold kept. tauto.
  - by apply list_filter_filter_l.
Qed.

End Records.

(** *** The chain letters *)

(** [_upper_case]: the upper case letters, from the last to the first. *)
Definition ascii_uppercase : list string :=
  ["A"; "B"; "C"; "D"; "E"; "F"; "G"; "H"; "I"; "J"; "K"; "L"; "M";
   "N"; "O"; "P"; "Q"; "R"; "S"; "T"; "U"; "V"; "W"; "X"; "Y"; "Z"].
Definition _upper_case : list string := reverse ascii_uppercase.

(** [_CHAINS = it.cycle(_upper_case)] is an iterator of the module: its
    state is the number of letters drawn so far, and [next(_CHAINS)] draws
    the next one. *)
Definition next_CHAINS (drawn : nat) : string * nat :=
  (default "" (_upper_case !! (drawn mod length _upper_case)%nat), S drawn).

Section Chains.

(** [read_chainids] and [read_segids] of [haddock.libs.libpdb], and the
    [run] functions of [pdb_segxchain], [pdb_chainxseg] and [pdb_chain] of
    pdb-tools. *)
Variables read_chainids read_segids : list string → list string.
Variables pdb_segxchain_run pdb_chainxseg_run : list string → list string.
Variable pdb_chain_run : list string → string → list string.

(** [not ids]: an empty list is false. *)
Definition empty (ids : list string) : bool := bool_decide (ids = []).

(** [solve_no_chainID_no_segID], run without report; the state is that of
    [_CHAINS]. *)
Definition solve_no_chainID_no_segID (lines : list string) (drawn : nat)
    : list string * nat :=
  let chainids := read_chainids lines in
  let segids := read_segids lines in
  if empty chainids && negb (empty segids) then (pdb_segxchain_run lines, drawn)
  else if negb (empty chainids) && empty segids then (pdb_chainxseg_run lines, drawn)
  else if empty chainids && empty segids then
    let '(letter, drawn') := next_CHAINS drawn in
    let _chains := pdb_chain_run lines letter in
    (pdb_chainxseg_run _chains, drawn')
  else if bool_decide (chainids ≠ segids) then (pdb_chainxseg_run lines, drawn)
  else (lines, drawn).

(** The letter of a draw: [Z] for the first, down to [A], then [Z] again. *)
Definition chain_letter (drawn : nat) : string :=
  String (ascii_of_nat (90 - drawn mod 26)) "".

Lemma next_CHAINS_letter (drawn : nat) :
  next_CHAINS drawn = (chain_letter drawn, S drawn).
Proof.
  unfold next_CHAINS, chain_letter. f_equal.
  change (length _upper_case) with 26%nat.
  assert (Hlt : (drawn mod 26 < 26)%nat) by (apply Nat.mod_upper_bound; lia).
  revert Hlt. generalize (drawn mod 26)%nat. intros r Hr.
  do 26 (destruct r as [|r]; [reflexivity|]). lia.
Qed.

(** X18. A structure without chain and segment identifiers draws one letter
    from [_CHAINS] and is given it as its chain; any other structure draws
    none. The first structure that draws gets [Z], the next ones [Y], [X]
    and so on down to [A], and the twenty-seventh gets [Z] again: two draws
    give the same letter exactly when their ranks differ by a multiple of
    26. A structure whose identifiers are there and equal comes back as it
    is. *)
Theorem solve_no_chainID_no_segID_letters (lines : list string) (drawn : nat) :
  (read_chainids lines = [] → read_segids lines = [] →
   solve_no_chainID_no_segID lines drawn
   = (pdb_chainxseg_run (pdb_chain_run lines (chain_letter drawn)), S drawn))
  ∧ (¬ (read_chainids lines = [] ∧ read_segids lines = []) →
     (solve_no_chainID_no_segID lines drawn).2 = drawn)
  ∧ (read_chainids lines ≠ [] → read_segids lines = read_chainids lines →
     solve_no_chainID_no_segID lines drawn = (lines, drawn))
  ∧ chain_letter 0 = "Z"
  ∧ (∀ other, chain_letter drawn = chain_letter other ↔
              (drawn mod 26 = other mod 26)%nat).
Proof.
  split; [|split; [|split; [|split]]].
  - intros Hc Hs. unfold solve_no_chainID_no_segID, empty.
    by rewrite Hc, Hs, next_CHAINS_letter.
  - intros Hnot. unfold solve_no_chainID_no_segID, empty.
    destruct (decide (read_chainids lines = [])) as [Hc|Hc];
      destruct (decide (read_segids lines = [])) as [Hs|Hs].
    + tauto.
    + rewrite (bool_decide_eq_true_2 _ Hc), (bool_decide_eq_false_2 _ Hs). done.
    + rewrite (bool_decide_eq_false_2 _ Hc), (bool_decide_eq_true_2 _ Hs). done.
    + rewrite (bool_decide_eq_false_2 _ Hc), (bool_decide_eq_false_2 _ Hs). simpl.
      by case_bool_decide.
  - intros Hc Hs. unfold solve_no_chainID_no_segID, empty. rewrite Hs.
    rewrite (bool_decide_eq_false_2 _ Hc). simpl.
    rewrite bool_decide_eq_false_2; [done|]. by intros Hne.
  - reflexivity.
  - intros other. unfold chain_letter.
    assert (Hd : (drawn mod 26 < 26)%nat) by (apply Nat.mod_upper_bound; lia).
    assert (Ho : (other mod 26 < 26)%nat) by (apply Nat.mod_upper_bound; lia).
    revert Hd Ho. generalize (drawn mod 26)%nat (other mod 26)%nat.
    intros a b Ha Hb. split.
    + intros [= Heq]. apply (f_equal nat_of_ascii) in Heq.
      rewrite !nat_ascii_embedding in Heq by lia. lia.
    + by intros ->.
Qed.

End Chains.
End Preprocessing.

(** ** Sample structure lines

    Four lines of a PDB file with the residue name in columns 17 to 20, as
    [slc_resname] of [haddock.libs.libpdb] has it: a calcium ion written as
    [ATOM], an alanine written as [HETATM], a water and a remark. *)

Module SamplePdb.

Definition slc_resname : nat * nat := (17%nat, 20%nat).

Definition lines : list string :=
  ["REMARK sample";
   "ATOM      1 CA    CA A   1";
   "HETATM    2  N   ALA A   2";
   "HETATM    3  O   HOH A   3"].

Definition supported_HETATM : gset string := {["CA"]}.
Definition supported_ATOM : gset string := {["ALA"]}.

End SamplePdb.

Example sample_conversions :
  Preprocessing.convert_HETATM_to_ATOM SamplePdb.slc_resname SamplePdb.supported_ATOM
    (Preprocessing.convert_ATOM_to_HETATM SamplePdb.slc_resname
       SamplePdb.supported_HETATM SamplePdb.lines)
  = ["REMARK sample";
     "HETATM    1 CA    CA A   1";
     "ATOM      2  N   ALA A   2";
     "HETATM    3  O   HOH A   3"].
Proof. vm_compute. reflexivity. Qed.

Example sample_removal :
  Preprocessing.remove_unsupported_molecules SamplePdb.slc_resname SamplePdb.lines
    (Some SamplePdb.supported_HETATM) None ["HETATM"]
  = ["REMARK sample"; "ATOM      1 CA    CA A   1"].
Proof. vm_compute. reflexivity. Qed.

Example sample_chain_letters :
  (Preprocessing.next_CHAINS 0).1 = "Z"
  ∧ (Preprocessing.next_CHAINS 1).1 = "Y"
  ∧ (Preprocessing.next_CHAINS 25).1 = "A"
  ∧ (Preprocessing.next_CHAINS 26).1 = "Z".
Proof. vm_compute. auto. Qed.

Lemma convert_record_idempotent_witness :
  let out :=
    Preprocessing.convert_record SamplePdb.slc_resname SamplePdb.lines
      "ATOM" "HETATM" SamplePdb.supported_HETATM in
  length out = length SamplePdb.lines
  ∧ Preprocessing.drop_chars 6 <$> out = Preprocessing.drop_chars 6 <$> SamplePdb.lines
  ∧ Preprocessing.convert_record SamplePdb.slc_resname out
      "ATOM" "HETATM" SamplePdb.supported_HETATM
    = out.
Proof.
  apply (Preprocessing.convert_record_idempotent SamplePdb.slc_resname SamplePdb.lines
           "ATOM" "HETATM" SamplePdb.supported_HETATM).
  - simpl. lia.
  - reflexivity.
  - reflexivity.
Defined.

Lemma conversions_commute_witness :
  Preprocessing.convert_HETATM_to_ATOM SamplePdb.slc_resname SamplePdb.supported_ATOM
    (Preprocessing.convert_ATOM_to_HETATM SamplePdb.slc_resname
       SamplePdb.supported_HETATM SamplePdb.lines)
  = Preprocessing.convert_both SamplePdb.slc_resname SamplePdb.supported_HETATM
      SamplePdb.supported_ATOM <$> SamplePdb.lines
  ∧ Preprocessing.convert_ATOM_to_HETATM SamplePdb.slc_resname SamplePdb.supported_HETATM
      (Preprocessing.convert_HETATM_to_ATOM SamplePdb.slc_resname
         SamplePdb.supported_ATOM SamplePdb.lines)
    = Preprocessing.convert_both SamplePdb.slc_resname SamplePdb.supported_HETATM
        SamplePdb.supported_ATOM <$> SamplePdb.lines.
Proof.
  apply (Preprocessing.conversions_commute SamplePdb.slc_resname
           SamplePdb.supported_HETATM SamplePdb.supported_ATOM SamplePdb.lines).
  - unfold SamplePdb.supported_HETATM, SamplePdb.supported_ATOM.
    apply disjoint_singleton_l. rewrite elem_of_singleton. discriminate.
  - simpl. lia.
Defined.
